(** * node-soap, lib/http.js: the HTTP client of the SOAP transport

    A shallow embedding of [HttpClient] (request construction, multipart
    response parsing, envelope extraction) together with the JavaScript
    primitives it relies on: strings, the backtracking regular-expression
    matcher of ECMAScript, and objects as ordered property lists.

    Strings are sequences of 8-bit code units ([string] of [ascii]).  This is
    exact for the binary view of a response ([body.toString('binary')]) and
    for header values, and covers text bodies whose code units are below 256. *)

From Stdlib Require Import String Ascii List ZArith NArith Lia Bool Arith.
From Stdlib Require Import DecimalString.
From Stdlib Require Decimal DecimalPos.
Import ListNotations.
Local Open Scope string_scope.

Set Warnings "-register-all".

(* ================================================================== *)
(** ** JavaScript strings *)

Module JsString.

Definition code (a : ascii) : N := N_of_ascii a.

(** WhiteSpace and LineTerminator code units below 256: TAB, LF, VT, FF,
    CR, SP and NBSP.  [\s] and [String.prototype.trim] both use this set. *)
Definition is_white_space (a : ascii) : bool :=
  let n := code a in
  ((9 <=? n) && (n <=? 13) || (n =? 32) || (n =? 160))%N.

(** [String.prototype.toLowerCase], one code unit at a time. *)
Definition lower_unit (a : ascii) : ascii :=
  let n := code a in
  if ((65 <=? n) && (n <=? 90))%N then ascii_of_N (n + 32)
  else if ((192 <=? n) && (n <=? 222) && negb (n =? 215))%N then ascii_of_N (n + 32)
  else a.

(** The code unit of the upper case of [a] when that is a single code unit
    (it may lie above 255: U+039C for the micro sign, U+0178 for y with
    diaeresis), and [a] itself otherwise (sharp s). *)
Definition upper_unit (a : ascii) : N :=
  let n := code a in
  if ((97 <=? n) && (n <=? 122))%N then (n - 32)%N
  else if (n =? 181)%N then 924%N
  else if ((224 <=? n) && (n <=? 254) && negb (n =? 247))%N then (n - 32)%N
  else if (n =? 255)%N then 376%N
  else n.

Fixpoint toLowerCase (s : string) : string :=
  match s with
  | EmptyString => EmptyString
  | String a t => String (lower_unit a) (toLowerCase t)
  end.

Fixpoint trim_start (s : string) : string :=
  match s with
  | String a t => if is_white_space a then trim_start t else s
  | EmptyString => EmptyString
  end.

(** Drops the white space at the end of [s]. *)
Fixpoint trim_end (s : string) : string :=
  match s with
  | EmptyString => EmptyString
  | String a t =>
      match trim_end t with
      | EmptyString => if is_white_space a then EmptyString else String a EmptyString
      | t' => String a t'
      end
  end.

Definition trim (s : string) : string := trim_end (trim_start s).

Fixpoint take (n : nat) (s : string) : string :=
  match n, s with
  | S n', String a t => String a (take n' t)
  | _, _ => EmptyString
  end.

Fixpoint drop (n : nat) (s : string) : string :=
  match n, s with
  | S n', String _ t => drop n' t
  | _, _ => s
  end.

(** [s.substring(start, end)]; [fin = None] is the one-argument form.
    Arguments are clamped to [0, length] and swapped when out of order. *)
Definition substring (s : string) (start : Z) (fin : option Z) : string :=
  let len := Z.of_nat (String.length s) in
  let clamp := fun z => Z.min (Z.max z 0) len in
  let a := clamp start in
  let b := match fin with Some e => clamp e | None => len end in
  let from := Z.min a b in
  let to := Z.max a b in
  take (Z.to_nat (to - from)) (drop (Z.to_nat from) s).

(** [strip_prefix w s] is the rest of [s] after its prefix [w]. *)
Fixpoint strip_prefix (w s : string) : option string :=
  match w, s with
  | EmptyString, _ => Some s
  | String x w', String a s' => if Ascii.eqb x a then strip_prefix w' s' else None
  | String _ _, EmptyString => None
  end.

Fixpoint index_from (i : Z) (needle hay : string) : Z :=
  match strip_prefix needle hay with
  | Some _ => i
  | None =>
      match hay with
      | EmptyString => (-1)%Z
      | String _ t => index_from (i + 1) needle t
      end
  end.

(** [hay.indexOf(needle)]: the first position, or -1. *)
Definition indexOf (hay needle : string) : Z := index_from 0 needle hay.

(** The loop of [String.prototype.split] (ES5 15.5.4.14, no limit), over a
    matcher that gives the input left after a separator found at the
    current position.  [acc] is the piece since the last separator and
    [skip] the number of units of a separator still to pass.  A separator
    that ends where the last one ended (an empty one at the start or right
    after a separator) is not taken. *)
Fixpoint split_loop (sep : string -> option string) (acc : string) (skip : nat)
         (s : string) : list string :=
  match s with
  | EmptyString => [acc]
  | String a t =>
      match skip with
      | S n => split_loop sep acc n t
      | O =>
          match sep s with
          | None => split_loop sep (acc ++ String a EmptyString) 0 t
          | Some s' =>
              match String.length s - String.length s' with
              | O =>
                  match acc with
                  | EmptyString => split_loop sep (String a EmptyString) 0 t
                  | _ => acc :: split_loop sep (String a EmptyString) 0 t
                  end
              | S n => acc :: split_loop sep EmptyString n t
              end
          end
      end
  end.

Definition split_with (sep : string -> option string) (s : string) : list string :=
  match s with
  | EmptyString => match sep EmptyString with Some _ => [] | None => [EmptyString] end
  | _ => split_loop sep EmptyString 0 s
  end.

(** [s.split(separator)] for a string separator. *)
Definition split (s separator : string) : list string :=
  split_with (strip_prefix separator) s.

(** [Buffer.byteLength(s, 'utf8')]: code units below 128 take one byte, the
    others two. *)
Fixpoint utf8_byteLength (s : string) : Z :=
  match s with
  | EmptyString => 0
  | String a t => (if (code a <? 128)%N then 1 else 2) + utf8_byteLength t
  end.

End JsString.

(* ================================================================== *)
(** ** Regular expressions: the backtracking matcher of ECMAScript *)

Module Regex.
Import JsString.

Inductive class_atom : Type :=
| CChar (c : ascii)       (* a single character *)
| CSpace                  (* \s *)
| CNonSpace.              (* \S *)

(** The pattern constructs that the literals of http.js use.  A
    non-capturing group is its body.  No pattern of the file puts a
    capturing group under a quantifier, so the reset of captures at each
    iteration is the identity and is left out. *)
Inductive regex : Type :=
| Empty
| Char (c : ascii)
| Class (negated : bool) (atoms : list class_atom)
| Seq (r1 r2 : regex)
| Opt (r : regex)                  (* r?  greedy *)
| Star (r : regex)                 (* r*  greedy *)
| Group (n : nat) (r : regex)      (* the n-th capturing group *)
| Backref (n : nat).               (* \n *)

Fixpoint lit (w : string) : regex :=
  match w with
  | EmptyString => Empty
  | String a t => Seq (Char a) (lit t)
  end.

(** Canonicalize (ES5 15.10.2.8), [ic] being the ignoreCase flag. *)
Definition Canonicalize (ic : bool) (a : ascii) : N :=
  if ic then upper_unit a else code a.

Definition char_eq (ic : bool) (a b : ascii) : bool :=
  (Canonicalize ic a =? Canonicalize ic b)%N.

(** Membership in a class, up to Canonicalize.  White space is its own
    canonical form and the canonical form of nothing else, so [\s] and [\S]
    are tested on the unit itself. *)
Definition atom_match (ic : bool) (a : ascii) (t : class_atom) : bool :=
  match t with
  | CChar c => char_eq ic c a
  | CSpace => is_white_space a
  | CNonSpace => negb (is_white_space a)
  end.

Definition class_match (ic : bool) (negated : bool) (atoms : list class_atom)
           (a : ascii) : bool :=
  xorb negated (existsb (atom_match ic a) atoms).

Definition captures := list (nat * string).

Fixpoint get_capture (n : nat) (c : captures) : option string :=
  match c with
  | [] => None
  | (i, w) :: c' => if (i =? n)%nat then Some w else get_capture n c'
  end.

Definition set_capture (n : nat) (w : string) (c : captures) : captures :=
  (n, w) :: c.

(** The text between two positions of the same input, each given by the
    input that is left. *)
Definition consumed (s s' : string) : string :=
  take (String.length s - String.length s') s.

Fixpoint strip_prefix_ci (ic : bool) (w s : string) : option string :=
  match w, s with
  | EmptyString, _ => Some s
  | String x w', String a s' => if char_eq ic x a then strip_prefix_ci ic w' s' else None
  | String _ _, EmptyString => None
  end.

Definition state := (string * captures)%type.
Definition cont := string -> captures -> option state.

(** The loop of a greedy [*] over the matcher [body] of what it repeats:
    one more iteration first, the continuation [k] when that fails.  An
    iteration that consumes nothing is rejected, as RepeatMatcher does, so
    the length of the input bounds the number of iterations. *)
Fixpoint star_loop (body : string -> captures -> cont -> option state)
         (k : cont) (fuel : nat) (s : string) (c : captures) : option state :=
  match fuel with
  | O => k s c
  | S fuel' =>
      match body s c
              (fun s1 c1 =>
                 if (String.length s1 <? String.length s)%nat
                 then star_loop body k fuel' s1 c1 else None) with
      | Some x => Some x
      | None => k s c
      end
  end.

(** [m ic r s c k]: match [r] at the head of [s] with captures [c], then
    continue with [k]; [None] is failure, and the first success in
    backtracking order is the result. *)
Fixpoint m (ic : bool) (r : regex) (s : string) (c : captures) (k : cont)
  {struct r} : option state :=
  match r with
  | Empty => k s c
  | Char x =>
      match s with
      | String a s' => if char_eq ic a x then k s' c else None
      | EmptyString => None
      end
  | Class neg atoms =>
      match s with
      | String a s' => if class_match ic neg atoms a then k s' c else None
      | EmptyString => None
      end
  | Seq r1 r2 => m ic r1 s c (fun s1 c1 => m ic r2 s1 c1 k)
  | Opt r1 =>
      match m ic r1 s c
              (fun s1 c1 =>
                 if (String.length s1 <? String.length s)%nat then k s1 c1 else None) with
      | Some x => Some x
      | None => k s c
      end
  | Star r1 => star_loop (m ic r1) k (String.length s) s c
  | Group n r1 => m ic r1 s c (fun s1 c1 => k s1 (set_capture n (consumed s s1) c1))
  | Backref n =>
      match get_capture n c with
      | None => k s c
      | Some w =>
          match strip_prefix_ci ic w s with
          | Some s' => k s' c
          | None => None
          end
      end
  end.

Definition accept : cont := fun s c => Some (s, c).

(** The matches of a pattern, without their order: [matches ic r s c s' c']
    when [r] can consume the head of [s] under captures [c] and leave [s']
    with captures [c']. *)
Inductive matches (ic : bool) : regex -> string -> captures -> string -> captures -> Prop :=
| M_Empty s c : matches ic Empty s c s c
| M_Char x a s c :
    char_eq ic a x = true -> matches ic (Char x) (String a s) c s c
| M_Class neg atoms a s c :
    class_match ic neg atoms a = true ->
    matches ic (Class neg atoms) (String a s) c s c
| M_Seq r1 r2 s c s1 c1 s2 c2 :
    matches ic r1 s c s1 c1 -> matches ic r2 s1 c1 s2 c2 ->
    matches ic (Seq r1 r2) s c s2 c2
| M_Opt_none r s c : matches ic (Opt r) s c s c
| M_Opt_some r s c s1 c1 :
    matches ic r s c s1 c1 -> (String.length s1 < String.length s)%nat ->
    matches ic (Opt r) s c s1 c1
| M_Star_stop r s c : matches ic (Star r) s c s c
| M_Star_more r s c s1 c1 s2 c2 :
    matches ic r s c s1 c1 -> (String.length s1 < String.length s)%nat ->
    matches ic (Star r) s1 c1 s2 c2 ->
    matches ic (Star r) s c s2 c2
| M_Group n r s c s1 c1 :
    matches ic r s c s1 c1 ->
    matches ic (Group n r) s c s1 (set_capture n (consumed s s1) c1)
| M_Backref_undefined n s c :
    get_capture n c = None -> matches ic (Backref n) s c s c
| M_Backref n w s c s1 :
    get_capture n c = Some w -> strip_prefix_ci ic w s = Some s1 ->
    matches ic (Backref n) s c s1 c.

(** The pattern matches somewhere in [s]. *)
Definition occurs (ic : bool) (r : regex) (s : string) : Prop :=
  exists pre t s' c, s = pre ++ t /\ matches ic r t [] s' c.

(** One attempt at the current position, with all captures undefined. *)
Definition match_here (ic : bool) (r : regex) (s : string) : option state :=
  m ic r s [] accept.

Record match_result : Type := MatchResult {
  index : nat;              (* where the match starts *)
  matched : string;         (* match[0] *)
  groups : captures         (* match[n] is [get_capture n groups] *)
}.

(** [RegExp.prototype.exec] without the global flag: the leftmost position
    with a match, tried from [i] on, [s] being the input from [i]. *)
Fixpoint exec_from (ic : bool) (r : regex) (i : nat) (s : string) : option match_result :=
  match match_here ic r s with
  | Some (s', c) => Some (MatchResult i (consumed s s') c)
  | None =>
      match s with
      | EmptyString => None
      | String _ t => exec_from ic r (S i) t
      end
  end.

Definition exec (ic : bool) (r : regex) (s : string) : option match_result :=
  exec_from ic r 0 s.

(** [s.search(re)]: the index of the first match, or -1. *)
Definition search (ic : bool) (r : regex) (s : string) : Z :=
  match exec ic r s with
  | Some res => Z.of_nat (index res)
  | None => (-1)%Z
  end.

(** [s.split(re)]; the patterns split on have no capturing group, so no
    capture is spliced into the result. *)
Definition split (ic : bool) (r : regex) (s : string) : list string :=
  split_with (fun t => option_map fst (match_here ic r t)) s.

(** *** Notions for reasoning about the matcher *)

(** Continuations that agree everywhere. *)
Definition ext_eq (k1 k2 : cont) : Prop := forall s c, k1 s c = k2 s c.

(** A result on the whole input against the result on the input cut
    before [rest]. *)
Definition rel (rest : string) (T W : option state) : Prop :=
  (T = None -> W = None) /\
  (forall cf, T = Some (rest, cf) -> W = Some (EmptyString, cf)).

Definition sim (rest : string) (k k' : cont) : Prop :=
  forall u c, rel rest (k (u ++ rest) c) (k' u c).

(** A continuation that stops before [rest] was not started inside it. *)
Definition ends_later (rest : string) (k : cont) : Prop :=
  forall v c cf, k v c = Some (rest, cf) -> String.length rest <= String.length v.

(** Equality of two strings up to Canonicalize, unit by unit. *)
Fixpoint ci_equal (ic : bool) (x w : string) : bool :=
  match x, w with
  | EmptyString, EmptyString => true
  | String a x', String b w' => char_eq ic a b && ci_equal ic x' w'
  | _, _ => false
  end.

(** Every unit of [s] satisfies [p]. *)
Fixpoint all_units (p : ascii -> bool) (s : string) : bool :=
  match s with
  | EmptyString => true
  | String a t => p a && all_units p t
  end.

End Regex.

(* ================================================================== *)
(** ** JavaScript values and objects *)

Module Js.
Import JsString.

(** An object as its own enumerable properties in iteration order, which
    is the order of insertion for every key that is not an array index. *)
Definition obj (A : Type) : Type := list (string * A).

Section Objects.
Variable A : Type.

Fixpoint get (k : string) (o : obj A) : option A :=
  match o with
  | [] => None
  | (k', v) :: o' => if String.eqb k' k then Some v else get k o'
  end.

(** [o[k] = v]: an existing property keeps its place, a new one goes last. *)
Fixpoint set (k : string) (v : A) (o : obj A) : obj A :=
  match o with
  | [] => [(k, v)]
  | (k', v') :: o' =>
      if String.eqb k' k then (k, v) :: o' else (k', v') :: set k v o'
  end.

(** [delete o[k]]. *)
Definition delete (k : string) (o : obj A) : obj A :=
  filter (fun kv => negb (String.eqb (fst kv) k)) o.

(** [for (attr in src) dst[attr] = src[attr]]. *)
Definition assign (dst src : obj A) : obj A :=
  fold_left (fun o kv => set (fst kv) (snd kv) o) src dst.

(** [_.find(o, pred)] on an object: the value of the first property, in
    iteration order, that [pred value key] accepts. *)
Fixpoint find (pred : A -> string -> bool) (o : obj A) : option A :=
  match o with
  | [] => None
  | (k, v) :: o' => if pred v k then Some v else find pred o'
  end.

(** [_.omit(o, [k])]. *)
Definition omit (k : string) (o : obj A) : obj A := delete k o.
End Objects.

Arguments get {A} k o.
Arguments set {A} k v o.
Arguments delete {A} k o.
Arguments assign {A} dst src.
Arguments find {A} pred o.
Arguments omit {A} k o.

Inductive value : Type :=
| VUndefined
| VNull
| VBool (b : bool)
| VNumber (n : Z)
| VString (s : string)
| VBuffer (bytes : string)
| VArray (items : list value)
| VObject (props : list (string * value)).

(** ToBoolean. *)
Definition truthy (v : value) : bool :=
  match v with
  | VUndefined | VNull => false
  | VBool b => b
  | VNumber n => negb (n =? 0)%Z
  | VString s => negb (String.eqb s EmptyString)
  | VBuffer _ | VArray _ | VObject _ => true
  end.

(** [a || b]. *)
Definition or_else (a b : value) : value := if truthy a then a else b.

(** [o || {}] for an argument that is an object or is left out. *)
Definition or_empty (o : option (obj value)) : obj value :=
  match o with Some o => o | None => [] end.

(** A property read, [undefined] when the property is missing. *)
Definition prop (k : string) (o : obj value) : value :=
  match get k o with Some v => v | None => VUndefined end.

Definition string_of_Z (n : Z) : string := NilZero.string_of_int (Z.to_int n).

Fixpoint indexed (i : nat) (vs : list value) : obj value :=
  match vs with
  | [] => []
  | v :: vs' => (string_of_Z (Z.of_nat i), v) :: indexed (S i) vs'
  end.

Fixpoint units (s : string) : list value :=
  match s with
  | EmptyString => []
  | String a t => VString (String a EmptyString) :: units t
  end.

Fixpoint octets (s : string) : list value :=
  match s with
  | EmptyString => []
  | String a t => VNumber (Z.of_N (code a)) :: octets t
  end.

(** The own enumerable properties that [_.forOwn] visits and [_.isEmpty]
    counts: the properties of an object, the indices of an array, a string
    or a buffer, nothing for the other primitives. *)
Definition own_entries (v : value) : obj value :=
  match v with
  | VObject props => props
  | VArray items => indexed 0 items
  | VString s => indexed 0 (units s)
  | VBuffer b => indexed 0 (octets b)
  | _ => []
  end.

(** [_.isEmpty]. *)
Definition isEmpty (v : value) : bool :=
  match own_entries v with [] => true | _ => false end.

Fixpoint digits (s : string) (acc : option Z) : option Z :=
  match s with
  | String a t =>
      let n := code a in
      if ((48 <=? n) && (n <=? 57))%N
      then digits t (Some (10 * match acc with Some z => z | None => 0 end
                           + Z.of_N (n - 48)))%Z
      else acc
  | EmptyString => acc
  end.

(** [parseInt(s, 10)]; [None] is NaN. *)
Definition parseInt (s : string) : option Z :=
  match trim_start s with
  | String "-" t => option_map Z.opp (digits t None)
  | String "+" t => digits t None
  | t => digits t None
  end.

End Js.

(* ================================================================== *)
(** ** The patterns of http.js *)

Module Patterns.
Import Regex.

Definition DQUOTE : ascii := "034"%char.
Definition CR : ascii := "013"%char.
Definition LF : ascii := "010"%char.

(** The pattern of [handleResponse], flag [i]: an optional prolog ([<?],
    units other than [?], [?>], white space); then [<], group 1 of units
    other than [:], [:Envelope], group 2 of any units, [</], a
    back-reference to group 1 and [:Envelope>]. *)
Definition envelope_re : regex :=
  Seq (Opt (Seq (lit "<?")
           (Seq (Star (Class true [CChar "?"%char]))
           (Seq (lit "?>")
                (Star (Class false [CSpace]))))))
 (Seq (Char "<"%char)
 (Seq (Group 1 (Star (Class true [CChar ":"%char])))
 (Seq (lit ":Envelope")
 (Seq (Group 2 (Star (Class false [CNonSpace; CSpace])))
 (Seq (lit "</")
 (Seq (Backref 1)
      (lit ":Envelope>"))))))).

(** The pattern of [handleMultipart], flag [i]: [boundary=], a double
    quote, group 1 of units other than the double quote, a double quote. *)
Definition boundary_re : regex :=
  Seq (lit "boundary=")
 (Seq (Char DQUOTE)
 (Seq (Group 1 (Star (Class true [CChar DQUOTE])))
      (Char DQUOTE))).

(** CR LF CR LF, the blank line after a header block. *)
Definition CRLF : string := String CR (String LF EmptyString).

Definition blank_line_re : regex := lit (CRLF ++ CRLF).

(** An optional CR and an LF, the line break inside a header block. *)
Definition line_break_re : regex := Seq (Opt (Char CR)) (Char LF).

End Patterns.

(* ================================================================== *)
(** ** Data of the client *)

(** The object that [url.parse] returns, with the fields that
    [buildRequest] reads; [None] is [null]. *)
Module Url.
Record t : Type := Make {
  protocol : option string;
  hostname : option string;
  port : option string;
  pathname : option string;
  search : option string;
  hash : option string
}.
End Url.

(** The response object [res] of the network layer: its header map, whose
    names Node gives in lower case. *)
Module Response.
Record t : Type := Make { headers : Js.obj string }.
End Response.

(** A parsed MIME part, [{headers: headers, data: data}].  A header value is
    a string, or [None] for [undefined] (a header line without a colon). *)
Module MimePart.
Record t : Type := Make {
  headers : Js.obj (option string);
  data : string
}.
End MimePart.

(* ================================================================== *)
(** ** The first version of the client held in lib/http.js *)

Module HttpClientV1.
Import JsString Regex Js.

(** The pattern literal of the first version's [handleResponse], flag [i],
    read off on its own: an optional group of [<?], units other than [?],
    [?>] and white space; [<]; group 1 of units other than [:];
    [:Envelope]; group 2 of any units; [</]; a back-reference to group 1;
    [:Envelope>]. *)
Definition envelope_pattern : regex :=
  let prolog :=
    Seq (lit "<?")
   (Seq (Star (Class true [CChar "?"%char]))
   (Seq (lit "?>")
        (Star (Class false [CSpace])))) in
  Seq (Opt prolog)
 (Seq (Char "<"%char)
 (Seq (Group 1 (Star (Class true [CChar ":"%char])))
 (Seq (lit ":Envelope")
 (Seq (Group 2 (Star (Class false [CNonSpace; CSpace])))
 (Seq (lit "</")
 (Seq (Backref 1)
      (lit ":Envelope>"))))))).

(** [HttpClient.prototype.handleResponse] of the first version; [req] and
    [res] are not used and [debug] only logs. *)
Definition handleResponse (body : value) : value :=
  match body with
  | VString s =>
      match exec true envelope_pattern s with
      | Some mr => VString (matched mr)
      | None => body
      end
  | _ => body
  end.

End HttpClientV1.

(* ================================================================== *)
(** ** The attachment-capable version of the client *)

Import JsString Regex Js Patterns.

Definition nullable (o : option string) : value :=
  match o with Some s => VString s | None => VNull end.

(** ToString of a value that is a string or [null]. *)
Definition nullable_string (o : option string) : string :=
  match o with Some s => s | None => "null" end.

Definition Url_value (u : Url.t) : value :=
  VObject [("protocol", nullable (Url.protocol u));
           ("hostname", nullable (Url.hostname u));
           ("port", nullable (Url.port u));
           ("pathname", nullable (Url.pathname u));
           ("search", nullable (Url.search u));
           ("hash", nullable (Url.hash u))].

Definition DQ : string := String DQUOTE EmptyString.

(** What follows the hand-over of the descriptor in [request]: a call of
    [req.end(data)], nothing, or the TypeError of reading [Connection] from
    a nullish [options.headers]. *)
Inductive Flush : Type :=
| EndWith (data : value)
| NoEnd
| TypeError.

(** What the network layer is handed by [request]. *)
Record Exchange : Type := MkExchange {
  options : obj value;
  flush : Flush
}.

(** The single call of the completion callback. *)
Inductive Completion : Type :=
| CallbackError (err : value)
| Callback (res : option Response.t) (body : value)
           (attachments parts : list MimePart.t).

Section HttpClient.

(** [require('../package.json').version]. *)
Variable VERSION : string.
(** [url.parse] of Node. *)
Variable url_parse : string -> Url.t.
(** [uuid/v4], a generator threaded through its state. *)
Variable rng : Type.
Variable uuid : rng -> string * rng.
(** [Buffer.prototype.toString('utf8')] on the raw octets of a body. *)
Variable utf8_decode : string -> string.

Definition base_headers (u : Url.t) : obj value :=
  [("User-Agent", VString ("node-soap/" ++ VERSION));
   ("Accept", VString "text/html,application/xhtml+xml,application/xml,text/xml;q=0.9,*/*;q=0.8");
   ("Accept-Encoding", VString "none");
   ("Accept-Charset", VString "utf-8");
   ("Connection", VString "close");
   ("Host", VString (nullable_string (Url.hostname u)
                     ++ match parseInt (nullable_string (Url.port u)) with
                        | None => EmptyString
                        | Some p => ":" ++ string_of_Z p
                        end))].

Definition envelope_part (start : string) (data : value) : value :=
  VObject [("content-type", VString "application/soap+xml; charset=UTF-8");
           ("content-transfer-encoding", VString "8bit");
           ("content-id", VString ("<" ++ start ++ ">"));
           ("body", data)].

Definition attachment_part (kv : string * value) : value :=
  VObject [("content-transfer-encoding", VString "binary");
           ("content-id", VString ("<" ++ fst kv ++ ">"));
           ("body", snd kv)].

Definition multipart_content_type (boundary start : string) : string :=
  "multipart/related; boundary=" ++ boundary
    ++ "; type=" ++ DQ ++ "application/soap+xml" ++ DQ
    ++ "; start=" ++ DQ ++ "<" ++ start ++ ">" ++ DQ.

Definition keep_alive (headers : obj value) : bool :=
  match prop "Connection" headers with
  | VString s => String.eqb s "keep-alive"
  | _ => false
  end.

(** [HttpClient.prototype.buildRequest].  The locals [secure] and [path]
    are computed and never read; [debug] only logs.  The three-way choice
    on the payload and the attachments is the [if]/[else if] of the source:
    a string payload without attachments, then any payload with
    attachments, then the rest. *)
Definition buildRequest (rurl : string) (data : value)
           (exheaders exoptions : option (obj value)) (g : rng)
  : obj value * rng :=
  let exoptions := or_empty exoptions in
  let attachments := or_else (prop "attachments" exoptions) (VObject []) in
  let curl := url_parse rurl in
  let method := if truthy data then "POST" else "GET" in
  let headers := base_headers curl in
  let exheaders := or_empty exheaders in
  let headers := assign headers exheaders in
  let '(headers, multipart, g) :=
    match data, isEmpty attachments with
    | VString text, true =>
        (set "Content-Length" (VNumber (utf8_byteLength text)) headers,
         VUndefined, g)
    | _, false =>
        let (start, g1) := uuid g in
        let headers := delete "SOAPAction" headers in
        let (boundary, g2) := uuid g1 in
        let headers :=
          set "content-type" (VString (multipart_content_type boundary start)) headers in
        (headers,
         VArray (envelope_part start data
                   :: map attachment_part (own_entries attachments)),
         g2)
    | _, true => (headers, VUndefined, g)
    end in
  let options :=
    [("uri", Url_value curl);
     ("method", VString method);
     ("headers", VObject headers);
     ("followAllRedirects", VBool true);
     ("encoding", VNull);
     ("multipart", multipart)] in
  let options :=
    if isEmpty attachments && keep_alive headers
    then set "body" data options else options in
  (assign options (omit "attachments" exoptions), g).

(** [HttpClient.prototype.handleResponse]. *)
Definition handleResponse (body : value) : value :=
  match body with
  | VString s =>
      match exec true envelope_re s with
      | Some mr => VString (matched mr)
      | None => body
      end
  | _ => body
  end.

(** The body of the inner [forEach] of [handleMultipart]: one header line. *)
Definition header_line (headers : obj (option string)) (header : string)
  : obj (option string) :=
  let headerName := nth_error (JsString.split header ":") 0 in
  let headerValue := nth_error (JsString.split header ":") 1 in
  match headerName with
  | Some name =>
      if negb (String.eqb name EmptyString) then
        let name := trim name in
        let value :=
          match headerValue with
          | Some v => if String.eqb v EmptyString then Some v else Some (trim v)
          | None => None
          end in
        set name value headers
      else headers
  | None => headers
  end.

(** The body of the outer [forEach] of [handleMultipart]: one segment. *)
Definition parse_segment (attachment : string) : MimePart.t :=
  let bodyIndex := Regex.search false blank_line_re attachment in
  let headerPart := substring attachment 0 (Some bodyIndex) in
  let headers :=
    fold_left header_line (Regex.split false line_break_re headerPart) [] in
  let data := substring attachment (bodyIndex + 4) None in
  MimePart.Make headers data.

(** [HttpClient.prototype.handleMultipart]. *)
Definition handleMultipart (res : option Response.t) (body : value)
  : list MimePart.t :=
  match body, res with
  | VString body, Some res =>
      match get "content-type" (Response.headers res) with
      | Some ct =>
          if String.eqb ct EmptyString then []
          else
            match exec true boundary_re ct with
            | Some boundary =>
                let partSplitter :=
                  "--" ++ match get_capture 1 (groups boundary) with
                          | Some b => b
                          | None => "undefined"
                          end in
                map parse_segment (JsString.split body partSplitter)
            | None => []
            end
      | None => []
      end
  | _, _ => []
  end.

(** The predicate that [request] filters the parts with. *)
Definition is_attachment (part : MimePart.t) : bool :=
  let contentDisposition :=
    find (fun _ key => negb (String.eqb key EmptyString)
                       && String.eqb (toLowerCase key) "content-disposition")
         (MimePart.headers part) in
  let text :=
    match contentDisposition with
    | Some (Some v) => v
    | _ => EmptyString
    end in
  negb (indexOf text "attachment" =? -1)%Z.

(** The callback that [request] hands to the network layer; [body] is the
    raw body, one code unit per octet. *)
Definition on_response (err : value) (res : option Response.t) (body : string)
  : Completion :=
  if truthy err then CallbackError err
  else
    let binaryBody := body in
    let textBody := utf8_decode body in
    let parts := handleMultipart res (VString binaryBody) in
    let attachments := filter is_attachment parts in
    Callback res (handleResponse (VString textBody)) attachments parts.

(** [HttpClient.prototype.request], up to the network exchange: the
    descriptor handed over and whether [req.end(data)] follows. *)
Definition request (rurl : string) (data : value)
           (exheaders exoptions : option (obj value)) (g : rng)
  : Exchange * rng :=
  let (options, g') := buildRequest rurl data exheaders exoptions g in
  let headers := prop "headers" options in
  let attachments := prop "attachments" (or_empty exoptions) in
  (MkExchange options
     (if isEmpty attachments then
        match headers with
        | VUndefined | VNull => TypeError
        | _ => if keep_alive (own_entries headers) then NoEnd else EndWith data
        end
      else NoEnd),
   g').

End HttpClient.

Arguments buildRequest VERSION url_parse {rng} uuid rurl data exheaders exoptions g.
Arguments request VERSION url_parse {rng} uuid rurl data exheaders exoptions g.

(* ================================================================== *)
(** ** The rest of the first version of the client *)

Module HttpClientFirst.

(** The line break of the first version's header blocks: CR LF. *)
Definition crlf_re : regex := lit CRLF.

(** An element of the list that [handleAttachmentResponse] returns,
    [{headers: headers, data: data}]; [data] is [undefined] when the
    attachment has no blank line. *)
Record Attachment : Type := MkAttachment {
  headers : obj (option string);
  data : option string
}.

(** The single call of the completion callback of the first version. *)
Inductive Completion : Type :=
| CallbackError (err : value)
| Callback (res : option Response.t) (body : value) (attachments : list Attachment).

(** The callback of the inner [forEach] of [handleAttachmentResponse]; its
    test on [headerName] spells out undefined, null and the empty string. *)
Definition header_line (headers : obj (option string)) (header : string)
  : obj (option string) :=
  let headerName := nth_error (JsString.split header ":") 0 in
  let headerValue := nth_error (JsString.split header ":") 1 in
  match headerName with
  | Some name =>
      if negb (String.eqb name EmptyString) then
        let name := trim name in
        let value :=
          match headerValue with
          | Some v => if String.eqb v EmptyString then Some v else Some (trim v)
          | None => None
          end in
        set name value headers
      else headers
  | None => headers
  end.

(** The callback of the outer [forEach]: it reads [attachments[0]], not its
    argument.  [split] gives at least one piece, so [attachement_split[0]]
    is a string. *)
Definition parse_attachment (attachments : list string) (attachment : string)
  : Attachment :=
  let attachement_split :=
    Regex.split false blank_line_re (nth 0 attachments EmptyString) in
  let headers :=
    fold_left header_line
              (Regex.split false crlf_re (nth 0 attachement_split EmptyString)) [] in
  MkAttachment headers (nth_error attachement_split 1).

(** [HttpClient.prototype.handleAttachmentResponse]. *)
Definition handleAttachmentResponse (res : option Response.t) (body : value)
  : list Attachment :=
  match body, res with
  | VString body, Some res =>
      match get "content-type" (Response.headers res) with
      | Some ct =>
          match exec true boundary_re ct with
          | Some boundary =>
              let partSplitter :=
                "--" ++ match get_capture 1 (groups boundary) with
                        | Some b => b
                        | None => "undefined"
                        end in
              let parts := JsString.split body partSplitter in
              let attachments :=
                filter (fun part => (1 <? indexOf part "attachment")%Z) parts in
              map (parse_attachment attachments) attachments
          | None => []
          end
      | None => []
      end
  | _, _ => []
  end.

(** The callback that [request] hands to the network layer. *)
Definition on_response (err : value) (res : option Response.t) (body : value)
  : Completion :=
  if truthy err then CallbackError err
  else
    let attachments := handleAttachmentResponse res body in
    Callback res (HttpClientV1.handleResponse body) attachments.

Section Client.

Variable VERSION : string.
Variable url_parse : string -> Url.t.

(** [HttpClient.prototype.buildRequest] of the first version. *)
Definition buildRequest (rurl : string) (data : value)
           (exheaders exoptions : option (obj value)) : obj value :=
  let curl := url_parse rurl in
  let method := if truthy data then "POST" else "GET" in
  let headers :=
    [("User-Agent", VString ("node-soap/" ++ VERSION));
     ("Accept", VString "text/html,application/xhtml+xml,application/xml,text/xml;q=0.9,*/*;q=0.8");
     ("Accept-Encoding", VString "none");
     ("Accept-Charset", VString "utf-8");
     ("Connection", VString "close");
     ("Host", VString (nullable_string (Url.hostname curl)
                       ++ match parseInt (nullable_string (Url.port curl)) with
                          | None => EmptyString
                          | Some p => ":" ++ string_of_Z p
                          end))] in
  let headers :=
    match data with
    | VString text =>
        set "Content-Type" (VString "application/x-www-form-urlencoded")
            (set "Content-Length" (VNumber (utf8_byteLength text)) headers)
    | _ => headers
    end in
  let headers := assign headers (or_empty exheaders) in
  let options :=
    [("uri", Url_value curl);
     ("method", VString method);
     ("headers", VObject headers);
     ("followAllRedirects", VBool true)] in
  let options := if keep_alive headers then set "body" data options else options in
  assign options (or_empty exoptions).

(** [HttpClient.prototype.request] of the first version, up to the network
    exchange. *)
Definition request (rurl : string) (data : value)
           (exheaders exoptions : option (obj value)) : Exchange :=
  let options := buildRequest rurl data exheaders exoptions in
  let headers := prop "headers" options in
  MkExchange options
    match headers with
    | VUndefined | VNull => TypeError
    | _ => if keep_alive (own_entries headers) then NoEnd else EndWith data
    end.

End Client.

End HttpClientFirst.

(* ================================================================== *)
(** ** Vocabulary of the properties *)

(** The values that [data ? 'POST' : 'GET'] takes for absent or empty. *)
Definition falsy (v : value) : Prop :=
  v = VUndefined \/ v = VNull \/ v = VString EmptyString
  \/ v = VBool false \/ v = VNumber 0.

(** The [content-id] and the [body] of an element of the part list. *)
Definition content_id (part : value) : value := prop "content-id" (own_entries part).
Definition body_of (part : value) : value := prop "body" (own_entries part).

(** The Content-Type of a response, when it has one. *)
Definition content_type (res : option Response.t) : option string :=
  match res with
  | Some r => get "content-type" (Response.headers r)
  | None => None
  end.

Fixpoint contains_unit (a : ascii) (s : string) : bool :=
  match s with
  | EmptyString => false
  | String b t => Ascii.eqb a b || contains_unit a t
  end.

(** [ct] holds a [boundary="..."] token: the word [boundary=] in any letter
    case, a double quote, a text free of double quotes, a double quote. *)
Definition has_boundary_token (ct : string) : Prop :=
  exists pre name token post,
    ct = pre ++ name ++ DQ ++ token ++ DQ ++ post /\
    toLowerCase name = "boundary=" /\
    contains_unit DQUOTE token = false.

(** The predicate that [request] gives to [_.find]. *)
Definition names_disposition (v : option string) (key : string) : bool :=
  negb (String.eqb key EmptyString)
  && String.eqb (toLowerCase key) "content-disposition".

(** [v] is the value of the first header of the part, in the order of its
    header map, whose name is [content-disposition] in any letter case. *)
Definition disposition (part : MimePart.t) (v : option string) : Prop :=
  exists pre k post,
    MimePart.headers part = (pre ++ (k, v) :: post)%list /\
    toLowerCase k = "content-disposition" /\
    Forall (fun kv => toLowerCase (fst kv) <> "content-disposition") pre.

(** That value holds the word [attachment], in lower case. *)
Definition marked_attachment (part : MimePart.t) : Prop :=
  exists v a b, disposition part (Some v) /\ v = a ++ "attachment" ++ b.

(** The pieces of a list of strings with [sep] between them,
    [Array.prototype.join]. *)
Fixpoint join (sep : string) (pieces : list string) : string :=
  match pieces with
  | [] => EmptyString
  | [piece] => piece
  | piece :: rest => piece ++ sep ++ join sep rest
  end.

(** [w] stands somewhere in [s]. *)
Definition holds (w s : string) : Prop := exists a b, s = a ++ w ++ b.


(** The merge of the baseline headers of [buildRequest] with the extra
    headers, before the payload and the attachments are looked at. *)
Definition merged_headers (VERSION : string) (u : Url.t)
           (exheaders : option (obj value)) : obj value :=
  assign (base_headers VERSION u) (or_empty exheaders).

(** A [boundary="..."] token of [ct] that starts after [pre] and has
    [token] between its quotes. *)
Definition boundary_token_at (ct pre token : string) : Prop :=
  exists name post,
    ct = pre ++ name ++ DQ ++ token ++ DQ ++ post /\
    toLowerCase name = "boundary=" /\
    contains_unit DQUOTE token = false.

(** The text between the quotes of the first such token of [ct]. *)
Definition first_boundary_token (ct token : string) : Prop :=
  exists pre,
    boundary_token_at ct pre token /\
    forall pre' token',
      boundary_token_at ct pre' token' -> String.length pre <= String.length pre'.

(** The header map of the first version's descriptor, before the extra
    options are copied over the descriptor. *)
Definition first_headers (VERSION : string) (u : Url.t) (data : value)
           (exheaders : option (obj value)) : obj value :=
  assign
    (match data with
     | VString text =>
         set "Content-Type" (VString "application/x-www-form-urlencoded")
             (set "Content-Length" (VNumber (utf8_byteLength text))
                  (base_headers VERSION u))
     | _ => base_headers VERSION u
     end)
    (or_empty exheaders).

(** *** Inputs of the closed examples *)

Definition sample_body : string :=
  "garbage<?xml version=" ++ DQ ++ "1.0" ++ DQ
    ++ "?>  <soap:Envelope>...</soap:Envelope>trailing".

Definition sample_envelope : string :=
  "<?xml version=" ++ DQ ++ "1.0" ++ DQ
    ++ "?>  <soap:Envelope>...</soap:Envelope>".

(** An environment for the examples: the parse of [http://example.org/svc],
    identifiers that are numbered, and bodies of 7-bit text. *)
Module Sample.
Definition VERSION : string := "0.18.0".
Definition rurl : string := "http://example.org/svc".
Definition url_parse (_ : string) : Url.t :=
  Url.Make (Some "http:") (Some "example.org") None (Some "/svc") None None.
Definition uuid (n : nat) : string * nat :=
  ("uuid-" ++ string_of_Z (Z.of_nat n), S n).
Definition utf8_decode (octets : string) : string := octets.
Definition buildRequest := buildRequest VERSION url_parse uuid.
Definition request := request VERSION url_parse uuid.
Definition on_response := on_response utf8_decode.
End Sample.

Definition sample_response : Response.t :=
  Response.Make
    [("content-type", "multipart/related; boundary=" ++ DQ ++ "MIME_boundary" ++ DQ)].

Definition sample_multipart : string :=
  "--MIME_boundary" ++ CRLF
    ++ "Content-Disposition: ATTACHMENT; filename=a.bin" ++ CRLF ++ CRLF
    ++ "DATA" ++ CRLF
    ++ "--MIME_boundary--" ++ CRLF.

(** A body with two attachments, for the first version. *)
Definition sample_attachments : string :=
  "--MIME_boundary" ++ CRLF
    ++ "Content-Disposition: attachment; filename=a.bin" ++ CRLF ++ CRLF
    ++ "DATA A" ++ CRLF
    ++ "--MIME_boundary" ++ CRLF
    ++ "Content-Disposition: attachment; filename=b.bin" ++ CRLF ++ CRLF
    ++ "DATA B" ++ CRLF
    ++ "--MIME_boundary--" ++ CRLF.


(* ================================================================== *)
(** * Properties *)

(** ** Strings *)

Module StringFacts.

Lemma length_app (u v : string) :
  String.length (u ++ v) = String.length u + String.length v.
Proof. induction u as [|a u IH]; simpl; [reflexivity | now rewrite IH]. Qed.

Lemma app_assoc (u v w : string) : (u ++ v) ++ w = u ++ (v ++ w).
Proof. induction u as [|a u IH]; simpl; [reflexivity | now rewrite IH]. Qed.

Lemma length_zero (u : string) : String.length u = 0 -> u = EmptyString.
Proof. destruct u; simpl; [reflexivity | discriminate]. Qed.

Lemma app_inv_tail_length (u v : string) :
  String.length (u ++ v) <= String.length v -> u = EmptyString.
Proof. rewrite length_app. intros H. apply length_zero. lia. Qed.

Lemma take_app (n : nat) (u v : string) :
  n <= String.length u -> take n (u ++ v) = take n u.
Proof.
  revert u. induction n as [|n IH]; intros [|a u] H; simpl in *; try reflexivity.
  - lia.
  - rewrite IH by lia. reflexivity.
Qed.

Lemma take_all (u : string) : take (String.length u) u = u.
Proof. induction u as [|a u IH]; simpl; [reflexivity | now rewrite IH]. Qed.

Lemma take_length_app (u v : string) : take (String.length u) (u ++ v) = u.
Proof. rewrite take_app by lia. apply take_all. Qed.

Lemma consumed_app (u v : string) : consumed (u ++ v) v = u.
Proof.
  unfold consumed. rewrite length_app.
  replace (String.length u + String.length v - String.length v)
    with (String.length u) by lia.
  apply take_length_app.
Qed.

Lemma consumed_frame (u u' rest : string) :
  consumed (u ++ rest) (u' ++ rest) = consumed u u'.
Proof.
  unfold consumed. rewrite !length_app.
  replace (String.length u + String.length rest
           - (String.length u' + String.length rest))
    with (String.length u - String.length u') by lia.
  apply take_app. lia.
Qed.

Lemma strip_prefix_app (w s r : string) :
  strip_prefix w s = Some r <-> s = w ++ r.
Proof.
  revert s. induction w as [|x w IH]; intros s; simpl.
  - split; [intros [= ->] | intros ->]; reflexivity.
  - destruct s as [|a s]; [split; discriminate|].
    destruct (Ascii.eqb_spec x a) as [->|Hne].
    + rewrite IH. split; [intros -> | intros [= ->]]; reflexivity.
    + split; [discriminate | intros [= E _]; congruence].
Qed.

End StringFacts.

(** ** The matcher *)

Module RegexFacts.
Import StringFacts.

Lemma star_loop_ext (body : string -> captures -> cont -> option state) :
  (forall s c k1 k2, ext_eq k1 k2 -> body s c k1 = body s c k2) ->
  forall k1 k2, ext_eq k1 k2 ->
  forall fuel s c, star_loop body k1 fuel s c = star_loop body k2 fuel s c.
Proof.
  intros Hbody k1 k2 Hk fuel.
  induction fuel as [|fuel IH]; intros s c; simpl; [apply Hk|].
  rewrite (Hbody s c _
             (fun s1 c1 =>
                if (String.length s1 <? String.length s)%nat
                then star_loop body k2 fuel s1 c1 else None)).
  - rewrite Hk. reflexivity.
  - intros s1 c1. destruct (String.length s1 <? String.length s)%nat; [apply IH | reflexivity].
Qed.

Lemma m_ext ic r : forall s c k1 k2, ext_eq k1 k2 -> m ic r s c k1 = m ic r s c k2.
Proof.
  induction r as [| x | neg atoms | r1 IH1 r2 IH2 | r1 IH1 | r1 IH1 | n r1 IH1 | n];
    intros s c k1 k2 Hk; simpl.
  - apply Hk.
  - destruct s as [|a s]; [reflexivity|]. destruct (char_eq ic a x); [apply Hk | reflexivity].
  - destruct s as [|a s]; [reflexivity|].
    destruct (class_match ic neg atoms a); [apply Hk | reflexivity].
  - apply IH1. intros s1 c1. apply IH2, Hk.
  - rewrite (IH1 s c _
               (fun s1 c1 => if (String.length s1 <? String.length s)%nat
                             then k2 s1 c1 else None)).
    + rewrite Hk. reflexivity.
    + intros s1 c1. rewrite Hk. reflexivity.
  - apply star_loop_ext; assumption.
  - apply IH1. intros s1 c1. apply Hk.
  - destruct (get_capture n c); [|apply Hk].
    destruct (strip_prefix_ci ic s0 s); [apply Hk | reflexivity].
Qed.

(** *** Every result of the matcher is a match of the pattern *)

Lemma star_loop_sound ic r :
  (forall s c k x, m ic r s c k = Some x ->
     exists s' c', matches ic r s c s' c' /\ k s' c' = Some x) ->
  forall k fuel s c x,
    star_loop (m ic r) k fuel s c = Some x ->
    exists s' c', matches ic (Star r) s c s' c' /\ k s' c' = Some x.
Proof.
  intros Hbody k fuel.
  induction fuel as [|fuel IH]; intros s c x H; simpl in H.
  - exists s, c. split; [constructor | assumption].
  - destruct (m ic r s c _) as [y|] eqn:E.
    + injection H as ->.
      apply Hbody in E. destruct E as (s1 & c1 & Hm & Hk).
      destruct (Nat.ltb_spec (String.length s1) (String.length s)); [|discriminate].
      apply IH in Hk. destruct Hk as (s2 & c2 & Hs & Hk).
      exists s2, c2. split; [|assumption].
      eapply M_Star_more; eassumption.
    + exists s, c. split; [constructor | assumption].
Qed.

Lemma m_sound ic r : forall s c k x,
  m ic r s c k = Some x ->
  exists s' c', matches ic r s c s' c' /\ k s' c' = Some x.
Proof.
  induction r as [| x | neg atoms | r1 IH1 r2 IH2 | r1 IH1 | r1 IH1 | n r1 IH1 | n];
    intros s c k y H; simpl in H.
  - exists s, c. split; [constructor | assumption].
  - destruct s as [|a s]; [discriminate|].
    destruct (char_eq ic a x) eqn:E; [|discriminate].
    exists s, c. split; [now constructor | assumption].
  - destruct s as [|a s]; [discriminate|].
    destruct (class_match ic neg atoms a) eqn:E; [|discriminate].
    exists s, c. split; [now constructor | assumption].
  - apply IH1 in H. destruct H as (s1 & c1 & H1 & H).
    apply IH2 in H. destruct H as (s2 & c2 & H2 & H).
    exists s2, c2. split; [econstructor; eassumption | assumption].
  - destruct (m ic r1 s c _) as [z|] eqn:E.
    + injection H as ->. apply IH1 in E. destruct E as (s1 & c1 & H1 & H).
      destruct (Nat.ltb_spec (String.length s1) (String.length s)); [|discriminate].
      exists s1, c1. split; [now apply M_Opt_some | assumption].
    + exists s, c. split; [constructor | assumption].
  - eapply star_loop_sound; eassumption.
  - apply IH1 in H. destruct H as (s1 & c1 & H1 & H).
    exists s1, (set_capture n (consumed s s1) c1). split; [now constructor | assumption].
  - destruct (get_capture n c) as [w|] eqn:En.
    + destruct (strip_prefix_ci ic w s) as [s1|] eqn:Es; [|discriminate].
      exists s1, c. split; [eapply M_Backref; eassumption | assumption].
    + exists s, c. split; [now apply M_Backref_undefined | assumption].
Qed.

Lemma m_fail ic r s c : m ic r s c (fun _ _ => None) = None.
Proof.
  destruct (m ic r s c (fun _ _ => None)) as [x|] eqn:E; [|reflexivity].
  apply m_sound in E. destruct E as (? & ? & _ & ?). discriminate.
Qed.

Lemma strip_prefix_ci_app ic w : forall s s1,
  strip_prefix_ci ic w s = Some s1 ->
  exists x, s = x ++ s1 /\ String.length x = String.length w.
Proof.
  induction w as [|b w IH]; intros s s1 H; simpl in H.
  - injection H as ->. exists EmptyString. split; reflexivity.
  - destruct s as [|a s]; [discriminate|].
    destruct (char_eq ic b a); [|discriminate].
    apply IH in H. destruct H as (x & -> & Hl).
    exists (String a x). simpl. split; [reflexivity | now rewrite Hl].
Qed.

(** A match consumes a prefix of its input. *)
Lemma matches_suffix ic r s c s' c' :
  matches ic r s c s' c' -> exists w, s = w ++ s'.
Proof.
  induction 1.
  - exists EmptyString; reflexivity.
  - exists (String a EmptyString); reflexivity.
  - exists (String a EmptyString); reflexivity.
  - destruct IHmatches1 as (w1 & ->). destruct IHmatches2 as (w2 & ->).
    exists (w1 ++ w2). now rewrite app_assoc.
  - exists EmptyString; reflexivity.
  - assumption.
  - exists EmptyString; reflexivity.
  - destruct IHmatches1 as (w1 & ->). destruct IHmatches2 as (w2 & ->).
    exists (w1 ++ w2). now rewrite app_assoc.
  - assumption.
  - exists EmptyString; reflexivity.
  - apply strip_prefix_ci_app in H0. destruct H0 as (x & -> & _). now exists x.
Qed.

Lemma m_result ic r s c k x :
  m ic r s c k = Some x ->
  exists w s' c', s = w ++ s' /\ k s' c' = Some x.
Proof.
  intros H. apply m_sound in H. destruct H as (s' & c' & Hm & Hk).
  apply matches_suffix in Hm. destruct Hm as (w & ->).
  now exists w, s', c'.
Qed.

(** *** The fuel of the loop is enough *)

Lemma star_loop_fuel ic r k : forall n f1 f2 s c,
  String.length s <= n -> String.length s <= f1 -> String.length s <= f2 ->
  star_loop (m ic r) k f1 s c = star_loop (m ic r) k f2 s c.
Proof.
  induction n as [|n IH]; intros f1 f2 s c Hn H1 H2.
  - assert (s = EmptyString) as -> by (apply length_zero; lia).
    assert (forall f, star_loop (m ic r) k f EmptyString c = k EmptyString c) as E.
    { intros [|f]; simpl; [reflexivity|]. now rewrite m_fail. }
    now rewrite !E.
  - destruct s as [|a s].
    + apply (IH f1 f2 EmptyString c); simpl; lia.
    + destruct f1 as [|f1]; [simpl in H1; lia|].
      destruct f2 as [|f2]; [simpl in H2; lia|].
      simpl star_loop.
      rewrite (m_ext ic r (String a s) c _
                 (fun s1 c1 =>
                    if (String.length s1 <? String.length (String a s))%nat
                    then star_loop (m ic r) k f2 s1 c1 else None)); [reflexivity|].
      intros s1 c1. cbv beta.
      destruct (String.length s1 <? _)%nat eqn:E; [|reflexivity].
      apply Nat.ltb_lt in E. simpl in *. apply IH; lia.
Qed.

(** *** Every match of the pattern is tried by the matcher *)

Lemma m_complete ic r s c s' c' :
  matches ic r s c s' c' ->
  forall k, k s' c' <> None -> m ic r s c k <> None.
Proof.
  induction 1; intros k Hk; simpl.
  - assumption.
  - now rewrite H.
  - now rewrite H.
  - apply IHmatches1. apply IHmatches2. assumption.
  - destruct (m ic r s c _); [discriminate | assumption].
  - destruct (m ic r s c _) eqn:E; [discriminate|].
    exfalso. revert E. apply IHmatches.
    apply Nat.ltb_lt in H0. now rewrite H0.
  - destruct (String.length s); simpl; [assumption|].
    destruct (m ic r s c _); [discriminate | assumption].
  - destruct (String.length s) as [|f] eqn:El; [lia|]. simpl.
    destruct (m ic r s c _) eqn:E; [discriminate|].
    exfalso. revert E. apply IHmatches1.
    rewrite El. rewrite (proj2 (Nat.ltb_lt _ _) H0).
    rewrite (star_loop_fuel ic r k f f (String.length s1)) by lia.
    apply (IHmatches2 k Hk).
  - apply IHmatches. assumption.
  - now rewrite H.
  - now rewrite H, H0.
Qed.

(** *** Cutting the input at the end of the match

    When the first match in backtracking order at the head of [w ++ rest]
    ends exactly before [rest], it is also the first match at the head of
    [w] alone: every alternative tried earlier fails on the shorter input
    as well, since what succeeds on [w] succeeds on [w ++ rest]. *)

Section Truncation.
Variable ic : bool.
Variable rest : string.

Lemma rel_orelse (A A' B B' : option state) :
  rel rest A A' -> rel rest B B' ->
  rel rest (match A with Some x => Some x | None => B end)
      (match A' with Some x => Some x | None => B' end).
Proof.
  intros [Ha Hb] [Hc Hd]. destruct A as [x|].
  - split; [discriminate|]. intros cf E. rewrite (Hb cf E). reflexivity.
  - rewrite (Ha eq_refl). split; assumption.
Qed.

Lemma rel_fail : rel rest None None.
Proof. split; [reflexivity | discriminate]. Qed.

Lemma head_inside (k : cont) (f : ascii -> bool) (c cf : captures) :
  ends_later rest k ->
  forall r0, String.length r0 <= String.length rest ->
    match r0 with
    | String a s' => if f a then k s' c else None
    | EmptyString => None
    end <> Some (rest, cf).
Proof.
  intros He [|a s'] Hl; [discriminate|].
  destruct (f a); [|discriminate].
  intros E. apply He in E. simpl in Hl. lia.
Qed.

Lemma ltb_frame (u1 u : string) :
  (String.length (u1 ++ rest) <? String.length (u ++ rest))%nat
  = (String.length u1 <? String.length u)%nat.
Proof.
  rewrite !length_app.
  destruct (Nat.ltb_spec (String.length u1) (String.length u));
    [apply Nat.ltb_lt | apply Nat.ltb_ge]; lia.
Qed.

Lemma ends_later_m r k : ends_later rest k -> ends_later rest (fun s c => m ic r s c k).
Proof.
  intros Hk v c cf H. apply m_result in H.
  destruct H as (w & s' & c' & -> & H). apply Hk in H.
  rewrite length_app. lia.
Qed.

Lemma ends_later_star r k fuel :
  ends_later rest k -> ends_later rest (star_loop (m ic r) k fuel).
Proof.
  intros Hk v c cf H.
  apply (star_loop_sound ic r (m_sound ic r)) in H.
  destruct H as (s' & c' & Hm & H).
  apply matches_suffix in Hm. destruct Hm as (w & ->).
  apply Hk in H. rewrite length_app. lia.
Qed.

Lemma strip_prefix_ci_frame w : forall u,
  match strip_prefix_ci ic w u with
  | Some u' => strip_prefix_ci ic w (u ++ rest) = Some (u' ++ rest)
  | None =>
      match strip_prefix_ci ic w (u ++ rest) with
      | Some v => String.length v < String.length rest
      | None => True
      end
  end.
Proof.
  induction w as [|b w IH]; intros u; [reflexivity|].
  destruct u as [|a u].
  - change (strip_prefix_ci ic (String b w) EmptyString) with (@None string).
    change (EmptyString ++ rest) with rest. cbv iota.
    destruct (strip_prefix_ci ic (String b w) rest) as [v|] eqn:E; [|exact I].
    apply strip_prefix_ci_app in E. destruct E as (x & -> & Hl).
    rewrite length_app, Hl. simpl. lia.
  - cbn [strip_prefix_ci append]. destruct (char_eq ic b a); [apply IH | exact I].
Qed.

Lemma star_loop_sim r k k' :
  (forall k1 k1', sim rest k1 k1' -> ends_later rest k1 ->
                  sim rest (fun s c => m ic r s c k1) (fun s c => m ic r s c k1')) ->
  sim rest k k' -> ends_later rest k ->
  forall n u c, String.length (u ++ rest) <= n ->
    rel rest (star_loop (m ic r) k n (u ++ rest) c) (star_loop (m ic r) k' n u c).
Proof.
  intros IHr Hs He n. induction n as [|n IH]; intros u c Hn; simpl.
  - apply Hs.
  - apply rel_orelse; [|apply Hs].
    apply (IHr (fun s1 c1 =>
                  if (String.length s1 <? String.length (u ++ rest))%nat
                  then star_loop (m ic r) k n s1 c1 else None)
               (fun s1 c1 =>
                  if (String.length s1 <? String.length u)%nat
                  then star_loop (m ic r) k' n s1 c1 else None)).
    + intros u1 c1. rewrite ltb_frame.
      destruct (Nat.ltb_spec (String.length u1) (String.length u)); [|apply rel_fail].
      apply IH. rewrite length_app in *. lia.
    + intros v c1 cf H.
      destruct (String.length v <? String.length (u ++ rest))%nat; [|discriminate].
      revert H. apply ends_later_star, He.
Qed.

Lemma trunc r : forall k k',
  sim rest k k' -> ends_later rest k ->
  sim rest (fun s c => m ic r s c k) (fun s c => m ic r s c k').
Proof.
  induction r as [| x | neg atoms | r1 IH1 r2 IH2 | r1 IH1 | r1 IH1 | n r1 IH1 | n];
    intros k k' Hs He u c; simpl.
  - apply Hs.
  - destruct u as [|a u]; simpl.
    + split; [reflexivity|]. intros cf E. exfalso. revert E.
      apply (head_inside k (fun a => char_eq ic a x) c cf He rest). lia.
    + destruct (char_eq ic a x); [apply Hs | apply rel_fail].
  - destruct u as [|a u]; simpl.
    + split; [reflexivity|]. intros cf E. exfalso. revert E.
      apply (head_inside k (class_match ic neg atoms) c cf He rest). lia.
    + destruct (class_match ic neg atoms a); [apply Hs | apply rel_fail].
  - apply (IH1 (fun s1 c1 => m ic r2 s1 c1 k) (fun s1 c1 => m ic r2 s1 c1 k')).
    + apply IH2; assumption.
    + apply ends_later_m, He.
  - apply rel_orelse; [|apply Hs].
    apply (IH1 (fun s1 c1 =>
                  if (String.length s1 <? String.length (u ++ rest))%nat
                  then k s1 c1 else None)
               (fun s1 c1 =>
                  if (String.length s1 <? String.length u)%nat
                  then k' s1 c1 else None)).
    + intros u1 c1. rewrite ltb_frame.
      destruct (String.length u1 <? String.length u)%nat; [apply Hs | apply rel_fail].
    + intros v c1 cf H.
      destruct (String.length v <? String.length (u ++ rest))%nat; [|discriminate].
      revert H. apply He.
  - rewrite (star_loop_fuel ic r1 k' (String.length (u ++ rest))
               (String.length u) (String.length (u ++ rest)))
      by (rewrite ?length_app; lia).
    apply star_loop_sim; auto.
  - apply (IH1 (fun s1 c1 => k s1 (set_capture n (consumed (u ++ rest) s1) c1))
               (fun s1 c1 => k' s1 (set_capture n (consumed u s1) c1))).
    + intros u1 c1. rewrite consumed_frame. apply Hs.
    + intros v c1 cf H. revert H. apply He.
  - destruct (get_capture n c) as [w|]; [|apply Hs].
    pose proof (strip_prefix_ci_frame w u) as Hf.
    destruct (strip_prefix_ci ic w u) as [u'|].
    + rewrite Hf. apply Hs.
    + destruct (strip_prefix_ci ic w (u ++ rest)) as [v|]; [|apply rel_fail].
      split; [reflexivity|]. intros cf E. apply He in E. lia.
Qed.

Lemma match_here_cut r w cf :
  match_here ic r (w ++ rest) = Some (rest, cf) ->
  match_here ic r w = Some (EmptyString, cf).
Proof.
  unfold match_here. intros H.
  apply (trunc r accept accept); [| |exact H].
  - intros u c. unfold accept. split; [discriminate|].
    intros cf' [= E ->].
    assert (u = EmptyString) as ->
        by (apply (app_inv_tail_length u rest); rewrite E; lia).
    reflexivity.
  - intros v c cf' [= -> ->]. lia.
Qed.

End Truncation.

(** *** [exec] *)

Lemma match_here_split ic r t s' c :
  match_here ic r t = Some (s', c) -> t = consumed t s' ++ s'.
Proof.
  intros H. apply m_result in H. destruct H as (w & s1 & c1 & -> & [= -> ->]).
  now rewrite consumed_app.
Qed.

Lemma exec_from_some ic r : forall s i mr,
  exec_from ic r i s = Some mr ->
  exists pre t s',
    s = pre ++ t /\ index mr = i + String.length pre /\
    match_here ic r t = Some (s', groups mr) /\ matched mr = consumed t s'.
Proof.
  induction s as [|a s IH]; intros i mr H; simpl in H.
  - destruct (match_here ic r EmptyString) as [[s' c]|] eqn:E; [|discriminate].
    injection H as <-. exists EmptyString, EmptyString, s'. simpl.
    repeat split; auto.
  - destruct (match_here ic r (String a s)) as [[s' c]|] eqn:E.
    + injection H as <-. exists EmptyString, (String a s), s'. simpl.
      repeat split; auto.
    + apply IH in H. destruct H as (pre & t & s' & -> & Hi & Hm & Hc).
      exists (String a pre), t, s'. simpl. repeat split; auto. lia.
Qed.

Lemma exec_from_none ic r : forall s i,
  exec_from ic r i s = None <->
  (forall pre t, s = pre ++ t -> match_here ic r t = None).
Proof.
  induction s as [|a s IH]; intros i; simpl.
  - destruct (match_here ic r EmptyString) as [[s' c]|] eqn:E.
    + split; [discriminate|]. intros H.
      specialize (H EmptyString EmptyString eq_refl). congruence.
    + split; [|reflexivity]. intros _ pre t Ht.
      destruct pre; [|discriminate]. simpl in Ht. now subst t.
  - destruct (match_here ic r (String a s)) as [[s' c]|] eqn:E.
    + split; [discriminate|]. intros H.
      specialize (H EmptyString (String a s) eq_refl). congruence.
    + rewrite IH. split.
      * intros H pre t Ht. destruct pre as [|b pre]; simpl in Ht.
        -- now subst t.
        -- injection Ht as _ Ht. eapply H; eassumption.
      * intros H pre t Ht. apply (H (String a pre) t). simpl. now rewrite Ht.
Qed.

(** [exec] fails exactly on the inputs in which the pattern has no match. *)
Lemma exec_none_iff ic r s : exec ic r s = None <-> ~ occurs ic r s.
Proof.
  unfold exec. rewrite exec_from_none. split.
  - intros H (pre & t & s' & c & Hs & Hm).
    specialize (H pre t Hs). unfold match_here in H.
    revert H. eapply m_complete; [eassumption | discriminate].
  - intros H pre t Hs.
    destruct (match_here ic r t) as [[s' c]|] eqn:E; [|reflexivity].
    exfalso. apply H. unfold match_here in E. apply m_sound in E.
    destruct E as (s1 & c1 & Hm & [= -> ->]).
    now exists pre, t, s', c.
Qed.

(** The text that [exec] returns is matched whole by [exec] again. *)
Lemma exec_matched ic r s mr :
  exec ic r s = Some mr ->
  exec ic r (matched mr) = Some (MatchResult 0 (matched mr) (groups mr)).
Proof.
  intros H. apply exec_from_some in H.
  destruct H as (pre & t & s' & _ & _ & Hm & Hc).
  pose proof (match_here_split _ _ _ _ _ Hm) as Ht. rewrite <- Hc in Ht.
  rewrite Ht in Hm. apply match_here_cut in Hm.
  unfold exec. destruct (matched mr) as [|a w] eqn:Ew; simpl; rewrite Hm.
  - reflexivity.
  - unfold consumed. simpl. now rewrite take_all.
Qed.

End RegexFacts.

(* ================================================================== *)
(** ** Envelope extraction *)

(** C5.  On the body [garbage<?xml version="1.0"?>  <soap:Envelope>...</soap:Envelope>trailing]
    [handleResponse] returns the prolog, the white space after it and the
    envelope, without what comes before and after; and a string in which
    the envelope pattern has no match is returned unchanged. *)
Theorem handleResponse_extracts_envelope :
  handleResponse (VString sample_body) = VString sample_envelope /\
  (forall body : string,
     ~ occurs true envelope_re body ->
     handleResponse (VString body) = VString body).
Proof.
  split.
  - vm_compute. reflexivity.
  - intros body H. apply RegexFacts.exec_none_iff in H.
    unfold handleResponse. now rewrite H.
Qed.

Lemma handleResponse_extracts_envelope_witness :
  handleResponse (VString "<html>404 not found</html>")
  = VString "<html>404 not found</html>".
Proof.
  apply (proj2 handleResponse_extracts_envelope).
  apply RegexFacts.exec_none_iff. vm_compute. reflexivity.
Defined.

(** C9.  The [handleResponse] of the first version of the client and the
    [handleResponse] of the attachment-capable version return the same
    result on every body. *)
Theorem handleResponse_versions_agree :
  forall body : value, HttpClientV1.handleResponse body = handleResponse body.
Proof.
  intros body. unfold HttpClientV1.handleResponse, handleResponse.
  change HttpClientV1.envelope_pattern with envelope_re.
  destruct body as [| | b | n | s | b | items | props]; reflexivity.
Qed.

(** C10.  [handleResponse] is idempotent: extracting the envelope from an
    extracted envelope changes nothing. *)
Theorem handleResponse_idempotent :
  forall body : value,
    handleResponse (handleResponse body) = handleResponse body.
Proof.
  intros [| | b | n | s | b | items | props]; try reflexivity.
  unfold handleResponse at 2 3.
  destruct (exec true envelope_re s) as [mr|] eqn:E.
  - unfold handleResponse.
    rewrite (RegexFacts.exec_matched true envelope_re s mr E). reflexivity.
  - unfold handleResponse. rewrite E. reflexivity.
Qed.

(* ================================================================== *)
(** ** Objects *)

Module ObjectFacts.

Section Get.
Context {A : Type}.
Implicit Types (o dst src : obj A) (k : string) (v : A).

Lemma get_set_same k v o : get k (set k v o) = Some v.
Proof.
  induction o as [|[k' v'] o IH]; simpl.
  - now rewrite String.eqb_refl.
  - destruct (String.eqb_spec k' k) as [->|Hne]; simpl.
    + now rewrite String.eqb_refl.
    + destruct (String.eqb_spec k' k); [contradiction | assumption].
Qed.

Lemma get_set_other k k' v o : k' <> k -> get k (set k' v o) = get k o.
Proof.
  intros Hne. induction o as [|[k1 v1] o IH]; simpl.
  - destruct (String.eqb_spec k' k); [contradiction | reflexivity].
  - destruct (String.eqb_spec k1 k') as [->|H1]; simpl.
    + destruct (String.eqb_spec k' k); [contradiction | reflexivity].
    + destruct (String.eqb_spec k1 k); [reflexivity | assumption].
Qed.

Lemma get_delete_none k k' o : get k o = None -> get k (delete k' o) = None.
Proof.
  induction o as [|[k1 v1] o IH]; simpl; [reflexivity|].
  destruct (String.eqb_spec k1 k); [discriminate|]. intros H.
  destruct (String.eqb k1 k'); simpl; [now apply IH|].
  destruct (String.eqb_spec k1 k); [contradiction | now apply IH].
Qed.

(** Copying the properties of [src] leaves alone what [src] lacks. *)
Lemma get_assign_none k src : forall dst,
  get k src = None -> get k (assign dst src) = get k dst.
Proof.
  unfold assign. induction src as [|[k1 v1] src IH]; intros dst H; simpl in *.
  - reflexivity.
  - destruct (String.eqb_spec k1 k) as [|Hne]; [discriminate|].
    rewrite IH by assumption. now apply get_set_other.
Qed.

End Get.

Lemma isEmpty_or_else (v : value) :
  isEmpty (or_else v (VObject [])) = isEmpty v.
Proof.
  unfold or_else. destruct v as [| | b | n | s | b | items | props]; simpl; try reflexivity.
  - destruct b; reflexivity.
  - destruct (n =? 0)%Z; reflexivity.
  - destruct s; reflexivity.
Qed.

End ObjectFacts.

(* ================================================================== *)
(** ** Request construction *)

Lemma truthy_false_iff (v : value) : truthy v = false <-> falsy v.
Proof.
  unfold falsy. destruct v as [| | b | n | s | b | items | props]; simpl.
  - tauto.
  - tauto.
  - destruct b; split; intros H; try discriminate; try tauto.
    decompose [or] H; discriminate.
  - destruct (Z.eqb_spec n 0) as [->|Hn]; simpl; split; intros H;
      try discriminate; try tauto.
    decompose [or] H; try discriminate. congruence.
  - destruct (String.eqb_spec s EmptyString) as [->|Hs]; simpl; split; intros H;
      try discriminate; try tauto.
    decompose [or] H; try discriminate. congruence.
  - split; intros H; [discriminate | decompose [or] H; discriminate].
  - split; intros H; [discriminate | decompose [or] H; discriminate].
  - split; intros H; [discriminate | decompose [or] H; discriminate].
Qed.

Section BuildRequest.

Variable VERSION : string.
Variable url_parse : string -> Url.t.
Variable rng : Type.
Variable uuid : rng -> string * rng.

Local Abbreviation build := (buildRequest VERSION url_parse uuid).

(** The descriptor before the options of the caller are copied over it. *)
Lemma buildRequest_unfold rurl data exheaders exoptions g :
  exists headers multipart g',
    build rurl data exheaders exoptions g
    = (assign
         (let options :=
            [("uri", Url_value (url_parse rurl));
             ("method", VString (if truthy data then "POST" else "GET"));
             ("headers", VObject headers);
             ("followAllRedirects", VBool true);
             ("encoding", VNull);
             ("multipart", multipart)] in
          if isEmpty (prop "attachments" (or_empty exoptions)) && keep_alive headers
          then set "body" data options else options)
         (omit "attachments" (or_empty exoptions)), g')
    /\ (if isEmpty (prop "attachments" (or_empty exoptions))
        then multipart = VUndefined
        else exists start g1 boundary,
            uuid g = (start, g1) /\ uuid g1 = (boundary, g') /\
            get "content-type" headers
            = Some (VString (multipart_content_type boundary start)) /\
            multipart
            = VArray (envelope_part start data
                        :: map attachment_part
                             (own_entries (prop "attachments" (or_empty exoptions))))).
Proof.
  unfold buildRequest.
  rewrite ObjectFacts.isEmpty_or_else.
  destruct (isEmpty (prop "attachments" (or_empty exoptions))) eqn:Ee.
  - destruct data; eexists _, _, _; split; reflexivity.
  - destruct (uuid g) as [start g1] eqn:E1.
    destruct (uuid g1) as [boundary g2] eqn:E2.
    assert (own_entries (or_else (prop "attachments" (or_empty exoptions)) (VObject []))
            = own_entries (prop "attachments" (or_empty exoptions))) as Eo.
    { unfold or_else.
      destruct (prop "attachments" (or_empty exoptions)) as [| | b | n | s | b | items | props];
        try discriminate; simpl truthy; cbv iota; try reflexivity.
      destruct s; [discriminate | reflexivity]. }
    destruct data; rewrite Eo; eexists _, _, _; (split; [reflexivity|]);
      exists start, g1, boundary;
      (split; [reflexivity|]); (split; [exact E2|]);
      (split; [apply ObjectFacts.get_set_same | reflexivity]).
Qed.

Lemma get_descriptor k rurl data exheaders exoptions g :
  get k (or_empty exoptions) = None ->
  exists headers multipart g',
    build rurl data exheaders exoptions g
    = (assign
         (let options :=
            [("uri", Url_value (url_parse rurl));
             ("method", VString (if truthy data then "POST" else "GET"));
             ("headers", VObject headers);
             ("followAllRedirects", VBool true);
             ("encoding", VNull);
             ("multipart", multipart)] in
          if isEmpty (prop "attachments" (or_empty exoptions)) && keep_alive headers
          then set "body" data options else options)
         (omit "attachments" (or_empty exoptions)), g')
    /\ get k (fst (build rurl data exheaders exoptions g))
       = get k (let options :=
                  [("uri", Url_value (url_parse rurl));
                   ("method", VString (if truthy data then "POST" else "GET"));
                   ("headers", VObject headers);
                   ("followAllRedirects", VBool true);
                   ("encoding", VNull);
                   ("multipart", multipart)] in
                if isEmpty (prop "attachments" (or_empty exoptions)) && keep_alive headers
                then set "body" data options else options).
Proof.
  intros Hk.
  destruct (buildRequest_unfold rurl data exheaders exoptions g)
    as (headers & multipart & g' & E & _).
  exists headers, multipart, g'. split; [exact E|].
  rewrite E. cbn [fst].
  apply ObjectFacts.get_assign_none. now apply ObjectFacts.get_delete_none.
Qed.

(** C7, as the code has it.  When the attachment map is empty and the
    extra options carry no [method] entry, the method of the descriptor is
    GET exactly when the payload is falsy (absent, [null], the empty
    string, [false] or 0) and POST exactly when it is not. *)
Theorem buildRequest_method rurl data exheaders exoptions g :
  isEmpty (prop "attachments" (or_empty exoptions)) = true ->
  get "method" (or_empty exoptions) = None ->
  let descriptor := fst (build rurl data exheaders exoptions g) in
  (get "method" descriptor = Some (VString "GET") <-> falsy data) /\
  (get "method" descriptor = Some (VString "POST") <-> ~ falsy data).
Proof.
  intros _ Hm descriptor. subst descriptor.
  destruct (get_descriptor "method" rurl data exheaders exoptions g Hm)
    as (headers & multipart & g' & _ & ->).
  assert (forall b : bool,
             get "method"
               (let options :=
                  [("uri", Url_value (url_parse rurl));
                   ("method", VString (if truthy data then "POST" else "GET"));
                   ("headers", VObject headers);
                   ("followAllRedirects", VBool true);
                   ("encoding", VNull);
                   ("multipart", multipart)] in
                if b then set "body" data options else options)
             = Some (VString (if truthy data then "POST" else "GET"))) as ->
      by (intros [|]; reflexivity).
  rewrite <- truthy_false_iff.
  destruct (truthy data); split; split; intros H; try reflexivity;
    try discriminate; try congruence.
Qed.

Lemma request_unfold rurl data exheaders exoptions g :
  request VERSION url_parse uuid rurl data exheaders exoptions g
  = let built := build rurl data exheaders exoptions g in
    (MkExchange (fst built)
       (if isEmpty (prop "attachments" (or_empty exoptions)) then
          match prop "headers" (fst built) with
          | VUndefined | VNull => TypeError
          | _ =>
              if keep_alive (own_entries (prop "headers" (fst built)))
              then NoEnd else EndWith data
          end
        else NoEnd),
     snd built).
Proof.
  unfold request.
  destruct (buildRequest VERSION url_parse uuid rurl data exheaders exoptions g).
  reflexivity.
Qed.

(** C8, as the code has it.  When the extra options override none of
    [body], [multipart] and [headers], the descriptor never has both
    fields: a non-empty attachment map gives the part list and no [body];
    an empty one leaves [multipart] undefined and sets [body] to the
    payload exactly when the [Connection] header is [keep-alive]; in the
    remaining case neither field is set and [request] passes the payload
    to [req.end]. *)
Theorem buildRequest_body_or_multipart rurl data exheaders exoptions g :
  get "body" (or_empty exoptions) = None ->
  get "multipart" (or_empty exoptions) = None ->
  get "headers" (or_empty exoptions) = None ->
  let exchange := fst (request VERSION url_parse uuid rurl data exheaders exoptions g) in
  let descriptor := fst (build rurl data exheaders exoptions g) in
  options exchange = descriptor /\
  exists headers,
    get "headers" descriptor = Some (VObject headers) /\
    if isEmpty (prop "attachments" (or_empty exoptions)) then
      get "multipart" descriptor = Some VUndefined /\
      if keep_alive headers
      then get "body" descriptor = Some data /\ flush exchange = NoEnd
      else get "body" descriptor = None /\ flush exchange = EndWith data
    else
      get "body" descriptor = None /\ flush exchange = NoEnd /\
      exists envelope attached,
        get "multipart" descriptor = Some (VArray (envelope :: attached)).
Proof.
  intros Hb Hm Hh exchange descriptor.
  destruct (buildRequest_unfold rurl data exheaders exoptions g)
    as (headers & multipart & g' & E & Hparts).
  assert (forall k, get k (or_empty exoptions) = None ->
                    get k descriptor
                    = get k (let options :=
                               [("uri", Url_value (url_parse rurl));
                                ("method", VString (if truthy data then "POST" else "GET"));
                                ("headers", VObject headers);
                                ("followAllRedirects", VBool true);
                                ("encoding", VNull);
                                ("multipart", multipart)] in
                             if isEmpty (prop "attachments" (or_empty exoptions))
                                && keep_alive headers
                             then set "body" data options else options)) as Hget.
  { intros k Hk. subst descriptor. rewrite E. cbn [fst].
    apply ObjectFacts.get_assign_none. now apply ObjectFacts.get_delete_none. }
  assert (get "headers" descriptor = Some (VObject headers)) as Hhd.
  { rewrite (Hget _ Hh). destruct (_ && _); reflexivity. }
  assert (flush exchange
          = if isEmpty (prop "attachments" (or_empty exoptions))
            then if keep_alive headers then NoEnd else EndWith data
            else NoEnd) as Hfl.
  { subst exchange. rewrite request_unfold. cbn [fst flush].
    fold descriptor.
    replace (prop "headers" descriptor) with (VObject headers)
      by (unfold prop; now rewrite Hhd).
    reflexivity. }
  split.
  { subst exchange. rewrite request_unfold. reflexivity. }
  exists headers. split; [exact Hhd|].
  rewrite Hfl. rewrite (Hget _ Hb), (Hget _ Hm).
  destruct (isEmpty (prop "attachments" (or_empty exoptions))).
  - subst multipart. cbn [andb].
    destruct (keep_alive headers); repeat split; reflexivity.
  - destruct Hparts as (start & g1 & boundary & _ & _ & _ & ->).
    cbn [andb]. repeat split.
    eexists _, _. reflexivity.
Qed.

(** C1, as the code has it.  For a non-empty attachment map, when the
    extra options override none of [body], [headers] and [multipart], the
    descriptor has no [body]; its [content-type] header is
    [multipart/related] with the second identifier drawn as boundary and a
    [start] parameter equal to the [content-id] of the first part, which
    carries the payload; and the parts after it are one per entry of the
    map, in its order, with the key between angle brackets as
    [content-id] and the value as body. *)
Theorem buildRequest_multipart rurl data exheaders exoptions attachments g :
  get "attachments" (or_empty exoptions) = Some (VObject attachments) ->
  attachments <> [] ->
  get "body" (or_empty exoptions) = None ->
  get "headers" (or_empty exoptions) = None ->
  get "multipart" (or_empty exoptions) = None ->
  let descriptor := fst (build rurl data exheaders exoptions g) in
  let boundary := fst (uuid (snd (uuid g))) in
  get "body" descriptor = None /\
  exists headers cid envelope attached,
    get "headers" descriptor = Some (VObject headers) /\
    get "content-type" headers
    = Some (VString ("multipart/related; boundary=" ++ boundary
                       ++ "; type=" ++ DQ ++ "application/soap+xml" ++ DQ
                       ++ "; start=" ++ DQ ++ cid ++ DQ)) /\
    get "multipart" descriptor = Some (VArray (envelope :: attached)) /\
    content_id envelope = VString cid /\
    body_of envelope = data /\
    map content_id attached
    = map (fun kv => VString ("<" ++ fst kv ++ ">")) attachments /\
    map body_of attached = map snd attachments.
Proof.
  intros Ha Hne Hb Hh Hm descriptor boundary.
  assert (prop "attachments" (or_empty exoptions) = VObject attachments) as Hp
      by (unfold prop; now rewrite Ha).
  destruct (buildRequest_unfold rurl data exheaders exoptions g)
    as (headers & multipart & g' & E & Hparts).
  rewrite Hp in E, Hparts.
  assert (isEmpty (VObject attachments) = false) as He
      by (destruct attachments; [contradiction | reflexivity]).
  rewrite He in E, Hparts. cbn [andb] in E.
  destruct Hparts as (start & g1 & b & E1 & E2 & Hct & ->).
  assert (forall k, get k (or_empty exoptions) = None ->
                    get k descriptor
                    = get k [("uri", Url_value (url_parse rurl));
                             ("method", VString (if truthy data then "POST" else "GET"));
                             ("headers", VObject headers);
                             ("followAllRedirects", VBool true);
                             ("encoding", VNull);
                             ("multipart",
                              VArray (envelope_part start data
                                        :: map attachment_part
                                             (own_entries (VObject attachments))))])
    as Hget.
  { intros k Hk. subst descriptor. rewrite E. cbn [fst].
    apply ObjectFacts.get_assign_none. now apply ObjectFacts.get_delete_none. }
  split; [rewrite (Hget _ Hb); reflexivity|].
  exists headers, ("<" ++ start ++ ">"), (envelope_part start data),
    (map attachment_part attachments).
  split; [rewrite (Hget _ Hh); reflexivity|].
  split.
  { rewrite Hct. subst boundary. rewrite E1. cbn [snd]. rewrite E2. cbn [fst].
    unfold multipart_content_type. do 2 f_equal.
    repeat rewrite StringFacts.app_assoc. reflexivity. }
  split; [rewrite (Hget _ Hm); reflexivity|].
  split; [reflexivity|]. split; [reflexivity|].
  rewrite !map_map. split; reflexivity.
Qed.

End BuildRequest.

(* ================================================================== *)
(** ** The boundary parameter of a Content-Type *)

Module PatternFacts.
Import StringFacts RegexFacts.

Lemma matches_lit_inv ic w : forall s c s' c',
  matches ic (lit w) s c s' c' ->
  c' = c /\ exists x, s = x ++ s' /\ ci_equal ic x w = true.
Proof.
  induction w as [|b w IH]; intros s c s' c' H; simpl in H.
  - inversion H; subst. split; [reflexivity|]. exists EmptyString. split; reflexivity.
  - inversion H as [| | |r1 r2 s0 c0 s1 c1 s2 c2 H1 H2| | | | | | |]; subst.
    inversion H1; subst.
    apply IH in H2. destruct H2 as (-> & x & -> & Hx).
    split; [reflexivity|]. exists (String a x). simpl. split; [reflexivity|].
    now rewrite Hx, andb_true_r.
Qed.

Lemma matches_lit_intro ic w : forall x s' c,
  ci_equal ic x w = true -> matches ic (lit w) (x ++ s') c s' c.
Proof.
  induction w as [|b w IH]; intros [|a x] s' c H; simpl in H; try discriminate.
  - constructor.
  - apply andb_prop in H. destruct H as [Ha Hx]. simpl.
    eapply M_Seq; [constructor; exact Ha | apply IH, Hx].
Qed.

Lemma matches_star_class_inv ic neg atoms s c s' c' :
  matches ic (Star (Class neg atoms)) s c s' c' ->
  c' = c /\ exists x, s = x ++ s' /\ all_units (class_match ic neg atoms) x = true.
Proof.
  intros H. remember (Star (Class neg atoms)) as r eqn:Er.
  induction H; try discriminate.
  - split; [reflexivity|]. exists EmptyString. split; reflexivity.
  - injection Er as ->. inversion H; subst.
    destruct (IHmatches2 eq_refl) as (-> & x & -> & Hx).
    split; [reflexivity|]. exists (String a x). simpl. split; [reflexivity|].
    now rewrite Hx, andb_true_r.
Qed.

Lemma matches_star_class_intro ic neg atoms : forall x s' c,
  all_units (class_match ic neg atoms) x = true ->
  matches ic (Star (Class neg atoms)) (x ++ s') c s' c.
Proof.
  induction x as [|a x IH]; intros s' c H; simpl in H.
  - constructor.
  - apply andb_prop in H. destruct H as [Ha Hx]. simpl.
    eapply M_Star_more; [constructor; exact Ha | simpl; lia | apply IH, Hx].
Qed.

Lemma char_eq_DQUOTE a : char_eq true a DQUOTE = true <-> a = DQUOTE.
Proof.
  split; [|intros ->; reflexivity].
  destruct a as [[|] [|] [|] [|] [|] [|] [|] [|]]; vm_compute; intros H;
    first [reflexivity | discriminate].
Qed.

Lemma char_eq_boundary a x :
  In x (list_ascii_of_string "boundary=") ->
  (char_eq true a x = true <-> lower_unit a = x).
Proof.
  intros Hx. simpl in Hx. decompose [or] Hx; try contradiction; subst x;
    destruct a as [[|] [|] [|] [|] [|] [|] [|] [|]]; vm_compute;
    split; intros H; first [reflexivity | discriminate].
Qed.

Lemma ci_equal_boundary : forall w name,
  Forall (fun x => In x (list_ascii_of_string "boundary=")) (list_ascii_of_string w) ->
  (ci_equal true name w = true <-> toLowerCase name = w).
Proof.
  induction w as [|b w IH]; intros [|a name] Hw.
  - simpl; tauto.
  - simpl; split; discriminate.
  - simpl; split; discriminate.
  - cbn [ci_equal toLowerCase].
    cbn [list_ascii_of_string] in Hw. inversion Hw as [|? ? Hb Hw']; subst.
    rewrite andb_true_iff, (char_eq_boundary a b Hb), (IH name Hw').
    split; [intros [-> ->]; reflexivity | intros [= -> ->]; split; reflexivity].
Qed.

Lemma ci_equal_boundary_word name :
  ci_equal true name "boundary=" = true <-> toLowerCase name = "boundary=".
Proof.
  apply ci_equal_boundary.
  cbn [list_ascii_of_string].
  repeat (apply Forall_cons; [cbn [In]; tauto|]). apply Forall_nil.
Qed.

Lemma quote_free_iff token :
  all_units (class_match true true [CChar DQUOTE]) token = true
  <-> contains_unit DQUOTE token = false.
Proof.
  induction token as [|a token IH]; cbn [all_units contains_unit]; [tauto|].
  rewrite andb_true_iff, orb_false_iff, IH.
  unfold class_match. cbn [existsb atom_match]. rewrite orb_false_r.
  assert (char_eq true DQUOTE a = char_eq true a DQUOTE) as ->
      by (unfold char_eq; apply N.eqb_sym).
  destruct (char_eq true a DQUOTE) eqn:E.
  - apply char_eq_DQUOTE in E. subst a. cbn. split; intros [? ?]; discriminate.
  - destruct (Ascii.eqb_spec DQUOTE a) as [<-|Hne].
    + rewrite (proj2 (char_eq_DQUOTE DQUOTE) eq_refl) in E. discriminate.
    + cbn. tauto.
Qed.

Lemma boundary_match_iff t s' c :
  matches true boundary_re t [] s' c <->
  exists name token,
    t = name ++ DQ ++ token ++ DQ ++ s' /\
    toLowerCase name = "boundary=" /\
    contains_unit DQUOTE token = false /\
    c = [(1, token)].
Proof.
  unfold boundary_re. split.
  - intros H.
    inversion H as [| | |? ? ? ? s1 c1 ? ? H1 H2| | | | | | |]; subst.
    apply (matches_lit_inv true "boundary=") in H1. destruct H1 as (-> & name & -> & Hn).
    inversion H2 as [| | |? ? ? ? s2 c2 ? ? H3 H4| | | | | | |]; subst.
    inversion H3 as [|? q ? ? Hq| | | | | | | | |]; subst.
    inversion H4 as [| | |? ? ? ? s3 c3 ? ? H5 H6| | | | | | |]; subst.
    inversion H5 as [| | | | | | | |? ? ? ? s4 c4 H7| |]; subst.
    apply matches_star_class_inv in H7. destruct H7 as (-> & token & -> & Ht).
    inversion H6 as [|? q' ? ? Hq'| | | | | | | | |]; subst.
    apply char_eq_DQUOTE in Hq, Hq'. subst q q'.
    exists name, token. split; [reflexivity|].
    split; [now apply ci_equal_boundary_word|].
    split; [now apply quote_free_iff|].
    unfold set_capture.
    change (String DQUOTE s') with (DQ ++ s'). now rewrite consumed_app.
  - intros (name & token & -> & Hn & Ht & ->).
    eapply M_Seq; [apply matches_lit_intro, ci_equal_boundary_word, Hn|].
    eapply M_Seq; [apply (M_Char true DQUOTE DQUOTE); reflexivity|].
    eapply M_Seq.
    + pose proof (M_Group true 1 (Star (Class true [CChar DQUOTE]))
                    (token ++ DQ ++ s') [] (DQ ++ s') []) as Hg.
      rewrite consumed_app in Hg. apply Hg.
      apply matches_star_class_intro. now apply quote_free_iff.
    + apply (M_Char true DQUOTE DQUOTE). reflexivity.
Qed.

(** The test of [handleMultipart] fails exactly on the values without a
    [boundary="..."] token. *)
Lemma boundary_exec_none ct :
  exec true boundary_re ct = None <-> ~ has_boundary_token ct.
Proof.
  rewrite exec_none_iff. unfold occurs, has_boundary_token. split.
  - intros H (pre & name & token & post & -> & Hn & Ht). apply H.
    exists pre, (name ++ DQ ++ token ++ DQ ++ post), post, [(1, token)].
    split; [reflexivity|]. apply boundary_match_iff.
    now exists name, token.
  - intros H (pre & t & s' & c & -> & Hm). apply H.
    apply boundary_match_iff in Hm.
    destruct Hm as (name & token & -> & Hn & Ht & _).
    now exists pre, name, token, s'.
Qed.

Lemma contains_unit_app a : forall u v,
  contains_unit a (u ++ v) = contains_unit a u || contains_unit a v.
Proof.
  induction u as [|b u IH]; intros v; simpl; [reflexivity|].
  now rewrite IH, orb_assoc.
Qed.

(** A value without any double quote, such as one whose boundary
    parameter is not quoted, holds no token. *)
Lemma unquoted_no_token ct :
  contains_unit DQUOTE ct = false -> ~ has_boundary_token ct.
Proof.
  intros H (pre & name & token & post & -> & _).
  rewrite !contains_unit_app in H. cbn in H.
  rewrite !orb_true_r in H. discriminate.
Qed.

End PatternFacts.

(* ================================================================== *)
(** ** Multipart responses *)

(** C4.  When the response has no Content-Type, or one whose value holds no
    [boundary="..."] token (a boundary parameter that is not quoted is not
    one), [handleMultipart] returns the empty list, and the callback
    receives an empty list of attachments. *)
Theorem handleMultipart_fails_soft (utf8_decode : string -> string) res body :
  content_type res = None
  \/ (exists ct, content_type res = Some ct /\ ~ has_boundary_token ct) ->
  handleMultipart res (VString body) = [] /\
  on_response utf8_decode VNull res body
  = Callback res (handleResponse (VString (utf8_decode body))) [] [].
Proof.
  intros H.
  assert (handleMultipart res (VString body) = []) as E.
  { unfold handleMultipart. destruct res as [r|]; [|reflexivity].
    simpl in H. destruct H as [-> | (ct & -> & Hct)]; [reflexivity|].
    destruct (String.eqb ct EmptyString); [reflexivity|].
    apply PatternFacts.boundary_exec_none in Hct. now rewrite Hct. }
  split; [exact E|].
  unfold on_response. simpl truthy. cbv iota. rewrite E. reflexivity.
Qed.

Lemma handleMultipart_fails_soft_witness :
  handleMultipart
    (Some (Response.Make [("content-type", "multipart/related; boundary=MIME_boundary")]))
    (VString "--MIME_boundary") = [].
Proof.
  apply (handleMultipart_fails_soft (fun s => s)
           (Some (Response.Make
                    [("content-type", "multipart/related; boundary=MIME_boundary")]))
           "--MIME_boundary").
  right. eexists. split; [reflexivity|].
  apply PatternFacts.unquoted_no_token. vm_compute. reflexivity.
Defined.

(** *** Attachments *)

Module AttachmentFacts.
Import StringFacts.

Lemma index_from_found needle : forall hay i,
  (0 <= i)%Z ->
  (index_from i needle hay <> (-1)%Z <-> exists a b, hay = a ++ needle ++ b).
Proof.
  induction hay as [|c hay IH]; intros i Hi; simpl.
  - destruct (strip_prefix needle EmptyString) as [r|] eqn:E.
    + apply strip_prefix_app in E. split; [|lia].
      intros _. exists EmptyString, r. exact E.
    + split; [congruence|]. intros ([|? ?] & b & Hab); [|discriminate].
      simpl in Hab. apply strip_prefix_app in Hab. congruence.
  - destruct (strip_prefix needle (String c hay)) as [r|] eqn:E.
    + apply strip_prefix_app in E. split; [|lia].
      intros _. exists EmptyString, r. exact E.
    + rewrite IH by lia. split.
      * intros (a & b & ->). now exists (String c a), b.
      * intros ([|c' a] & b & Hab); simpl in Hab.
        -- apply strip_prefix_app in Hab. congruence.
        -- injection Hab as _ ->. now exists a, b.
Qed.

Lemma indexOf_found hay needle :
  (indexOf hay needle =? -1)%Z = false <-> exists a b, hay = a ++ needle ++ b.
Proof.
  unfold indexOf. rewrite Z.eqb_neq. apply index_from_found. lia.
Qed.

Lemma names_disposition_iff v key :
  names_disposition v key = true <-> toLowerCase key = "content-disposition".
Proof.
  unfold names_disposition. rewrite andb_true_iff, String.eqb_eq. split; [tauto|].
  intros H. split; [|exact H].
  destruct key; [discriminate | reflexivity].
Qed.

(** [_.find] stops at the first property that the predicate accepts. *)
Lemma find_first {A : Type} (pred : A -> string -> bool) (o : obj A) (v : A) :
  find pred o = Some v <->
  exists pre k post,
    o = (pre ++ (k, v) :: post)%list /\ pred v k = true /\
    Forall (fun kv => pred (snd kv) (fst kv) = false) pre.
Proof.
  induction o as [|[k1 v1] o IH]; simpl.
  - split; [discriminate|]. intros ([|? ?] & ? & ? & H & _); discriminate.
  - destruct (pred v1 k1) eqn:E.
    + split.
      * intros [= ->]. exists [], k1, o. repeat split; auto.
      * intros ([|[k2 v2] pre] & k & post & Ho & Hp & Hpre); simpl in Ho.
        -- now injection Ho as _ ->.
        -- injection Ho as -> -> _. inversion Hpre; subst. simpl in *. congruence.
    + rewrite IH. split.
      * intros (pre & k & post & -> & Hp & Hpre).
        exists ((k1, v1) :: pre), k, post. repeat split; auto.
      * intros ([|[k2 v2] pre] & k & post & Ho & Hp & Hpre); simpl in Ho.
        -- injection Ho as -> ->. congruence.
        -- injection Ho as -> -> ->. inversion Hpre; subst.
           now exists pre, k, post.
Qed.

Lemma find_disposition part v :
  find names_disposition (MimePart.headers part) = Some v <-> disposition part v.
Proof.
  rewrite find_first. unfold disposition.
  split; intros (pre & k & post & Ho & Hk & Hpre); exists pre, k, post;
    (split; [exact Ho|]); (split; [now apply (names_disposition_iff v k)|]);
    (eapply Forall_impl; [|exact Hpre]); intros [k' v'] H; simpl in *.
  - intros Hn. apply (names_disposition_iff v' k') in Hn. congruence.
  - destruct (names_disposition v' k') eqn:E; [|reflexivity].
    apply names_disposition_iff in E. contradiction.
Qed.

Lemma not_found_empty : (indexOf EmptyString "attachment" =? -1)%Z = true.
Proof. reflexivity. Qed.

(** The predicate of the filter accepts exactly the marked parts. *)
Lemma is_attachment_iff part :
  is_attachment part = true <-> marked_attachment part.
Proof.
  unfold is_attachment, marked_attachment.
  change (fun (_ : option string) (key : string) =>
            negb (String.eqb key EmptyString)
            && String.eqb (toLowerCase key) "content-disposition")
    with names_disposition.
  rewrite negb_true_iff.
  destruct (find names_disposition (MimePart.headers part)) as [[v|]|] eqn:E.
  - rewrite indexOf_found. apply find_disposition in E. split.
    + intros (a & b & Hv). now exists v, a, b.
    + intros (v' & a & b & Hd & Hv). apply find_disposition in Hd.
      apply find_disposition in E. rewrite E in Hd. injection Hd as <-.
      now exists a, b.
  - rewrite not_found_empty. split; [discriminate|].
    intros (v' & a & b & Hd & _). apply find_disposition in Hd. congruence.
  - rewrite not_found_empty. split; [discriminate|].
    intros (v' & a & b & Hd & _). apply find_disposition in Hd. congruence.
Qed.

End AttachmentFacts.

(** C6, as the code has it.  The attachments passed to the callback are the
    parts, in their order, whose first header named [content-disposition]
    (in any letter case) has a value that holds the word [attachment] in
    lower case. *)
Theorem attachments_are_marked_parts (utf8_decode : string -> string) err res body :
  truthy err = false ->
  let parts := handleMultipart res (VString body) in
  on_response utf8_decode err res body
  = Callback res (handleResponse (VString (utf8_decode body)))
             (filter is_attachment parts) parts
  /\ (forall part, is_attachment part = true <-> marked_attachment part).
Proof.
  intros He parts. split.
  - unfold on_response. rewrite He. reflexivity.
  - apply AttachmentFacts.is_attachment_iff.
Qed.

(** *** Segments *)

Module SegmentFacts.
Import StringFacts RegexFacts PatternFacts.

Lemma char_eq_exact a b : char_eq false a b = true <-> a = b.
Proof.
  unfold char_eq, Canonicalize, code. rewrite N.eqb_eq. split; [|now intros ->].
  intros H. rewrite <- (ascii_N_embedding a), <- (ascii_N_embedding b). now rewrite H.
Qed.

Lemma ci_equal_exact : forall x w, ci_equal false x w = true <-> x = w.
Proof.
  induction x as [|a x IH]; intros [|b w]; simpl;
    try (split; [discriminate | discriminate]); [tauto|].
  rewrite andb_true_iff, char_eq_exact, IH.
  split; [intros [-> ->]; reflexivity | intros [= -> ->]; split; reflexivity].
Qed.

(** The blank-line pattern matches where CR LF CR LF stands. *)
Lemma blank_line_occurs seg :
  occurs false blank_line_re seg <-> exists pre post, seg = pre ++ CRLF ++ CRLF ++ post.
Proof.
  unfold occurs, blank_line_re. split.
  - intros (pre & t & s' & c & -> & Hm).
    apply matches_lit_inv in Hm. destruct Hm as (_ & x & -> & Hx).
    apply ci_equal_exact in Hx. subst x.
    exists pre, s'. now rewrite (app_assoc CRLF CRLF s').
  - intros (pre & post & ->).
    exists pre, ((CRLF ++ CRLF) ++ post), post, [].
    split; [now rewrite (app_assoc CRLF CRLF post)|].
    apply matches_lit_intro. now apply ci_equal_exact.
Qed.

Lemma search_none ic r s : exec ic r s = None -> Regex.search ic r s = (-1)%Z.
Proof. unfold Regex.search. now intros ->. Qed.

Lemma length_drop : forall n s, String.length (drop n s) = String.length s - n.
Proof.
  induction n as [|n IH]; intros [|a s]; simpl; try reflexivity; try lia. apply IH.
Qed.

Lemma drop_all : forall n s, String.length s <= n -> drop n s = EmptyString.
Proof.
  induction n as [|n IH]; intros [|a s] H; simpl in *; try reflexivity; try lia.
  apply IH. lia.
Qed.

(** [s.substring(-1 + 4)] drops three code units. *)
Lemma substring_three s : substring s (-1 + 4) None = drop 3 s.
Proof.
  unfold substring.
  remember (String.length s) as n eqn:En.
  destruct (Nat.le_gt_cases n 3) as [Hle|Hgt].
  - replace (Z.min (Z.min (Z.max (-1 + 4) 0) (Z.of_nat n)) (Z.of_nat n))
      with (Z.of_nat n) by lia.
    rewrite Nat2Z.id.
    rewrite (drop_all n s) by lia. rewrite (drop_all 3 s) by lia.
    now destruct (Z.to_nat _).
  - replace (Z.min (Z.min (Z.max (-1 + 4) 0) (Z.of_nat n)) (Z.of_nat n))
      with 3%Z by lia.
    replace (Z.max (Z.min (Z.max (-1 + 4) 0) (Z.of_nat n)) (Z.of_nat n))
      with (Z.of_nat n) by lia.
    change (Z.to_nat 3) with 3.
    replace (Z.to_nat (Z.of_nat n - 3)) with (String.length (drop 3 s))
      by (rewrite length_drop; lia).
    apply take_all.
Qed.

Lemma substring_to_minus_one s : substring s 0 (Some (-1)%Z) = EmptyString.
Proof.
  unfold substring.
  replace (Z.max (Z.min (Z.max 0 0) (Z.of_nat (String.length s)))
                 (Z.min (Z.max (-1) 0) (Z.of_nat (String.length s))))
    with 0%Z by lia.
  replace (Z.min (Z.min (Z.max 0 0) (Z.of_nat (String.length s)))
                 (Z.min (Z.max (-1) 0) (Z.of_nat (String.length s))))
    with 0%Z by lia.
  reflexivity.
Qed.

End SegmentFacts.

(** C2, what the code does where the claim fails.  For a segment in which
    CR LF CR LF does not occur, the part has no header, and its data is the
    segment without its first three code units: the index -1 of the failed
    search is used as if it were a position. *)
Theorem parse_segment_without_blank_line seg :
  ~ (exists pre post, seg = pre ++ CRLF ++ CRLF ++ post) ->
  parse_segment seg = MimePart.Make [] (drop 3 seg).
Proof.
  intros H.
  assert (Regex.search false blank_line_re seg = (-1)%Z) as E.
  { apply SegmentFacts.search_none, RegexFacts.exec_none_iff.
    now rewrite SegmentFacts.blank_line_occurs. }
  unfold parse_segment. rewrite E.
  rewrite SegmentFacts.substring_to_minus_one, SegmentFacts.substring_three.
  reflexivity.
Qed.

Lemma parse_segment_without_blank_line_witness :
  parse_segment "epilogue" = MimePart.Make [] "logue".
Proof.
  apply (parse_segment_without_blank_line "epilogue").
  rewrite <- SegmentFacts.blank_line_occurs, <- RegexFacts.exec_none_iff.
  vm_compute. reflexivity.
Defined.

(** C3, what the code does where the claim fails.  The value stored for a
    header line is the text between its first and its second colon: on
    [Content-ID: <urn:uuid:1>] it is [<urn], not [<urn:uuid:1>]. *)
Theorem header_value_stops_at_second_colon :
  header_line [] "Content-ID: <urn:uuid:1>" = [("Content-ID", Some "<urn")] /\
  parse_segment (CRLF ++ "Content-ID: <urn:uuid:1>" ++ CRLF ++ CRLF ++ "data")
  = MimePart.Make [("Content-ID", Some "<urn")] "data".
Proof. split; vm_compute; reflexivity. Qed.

(* ================================================================== *)
(** ** Closed examples *)

(** C1 fails as stated: options that carry a [body] next to the attachment
    map put that [body] into the descriptor, and the [content-id] of an
    attachment part is its key between angle brackets, not the key. *)
Lemma buildRequest_multipart_counterexample :
  let exoptions :=
    Some [("attachments", VObject [("a", VBuffer "A")]); ("body", VString "B")] in
  let descriptor :=
    fst (Sample.buildRequest Sample.rurl (VString "<x/>") None exoptions 0) in
  get "body" descriptor = Some (VString "B") /\
  exists envelope part,
    get "multipart" descriptor = Some (VArray [envelope; part]) /\
    content_id part = VString "<a>" /\
    content_id part <> VString "a".
Proof.
  split; [reflexivity|].
  eexists _, _. split; [reflexivity|]. split; [reflexivity | discriminate].
Qed.

Lemma buildRequest_multipart_witness :
  get "body"
    (fst (Sample.buildRequest Sample.rurl (VString "<x/>") None
            (Some [("attachments", VObject [("a", VBuffer "A")])]) 0))
  = None.
Proof.
  refine (proj1 (buildRequest_multipart Sample.VERSION Sample.url_parse nat Sample.uuid
                   Sample.rurl (VString "<x/>") None
                   (Some [("attachments", VObject [("a", VBuffer "A")])])
                   [("a", VBuffer "A")] 0 _ _ _ _ _)).
  - reflexivity.
  - discriminate.
  - reflexivity.
  - reflexivity.
  - reflexivity.
Defined.

(** C7 fails as stated: with no attachment and an empty payload, a [method]
    entry of the extra options decides the method. *)
Lemma buildRequest_method_counterexample :
  let exoptions := Some [("method", VString "PUT")] in
  let descriptor :=
    fst (Sample.buildRequest Sample.rurl (VString EmptyString) None exoptions 0) in
  isEmpty (prop "attachments" (or_empty exoptions)) = true /\
  get "method" descriptor = Some (VString "PUT") /\
  get "method" descriptor <> Some (VString "GET").
Proof. split; [reflexivity|]. split; [reflexivity | discriminate]. Qed.

Lemma buildRequest_method_witness :
  get "method" (fst (Sample.buildRequest Sample.rurl (VString EmptyString) None None 0))
  = Some (VString "GET").
Proof.
  apply (proj1 (buildRequest_method Sample.VERSION Sample.url_parse nat Sample.uuid
                  Sample.rurl (VString EmptyString) None None 0 eq_refl eq_refl)).
  right. right. left. reflexivity.
Defined.

(** C8 fails as stated: with a payload, no attachment and the default
    [Connection: close], the descriptor has neither a [body] nor a part
    list; the payload goes to [req.end]. *)
Lemma buildRequest_body_or_multipart_counterexample :
  let exchange := fst (Sample.request Sample.rurl (VString "<x/>") None None 0) in
  get "body" (options exchange) = None /\
  get "multipart" (options exchange) = Some VUndefined /\
  flush exchange = EndWith (VString "<x/>").
Proof. repeat split. Qed.

Lemma buildRequest_body_or_multipart_witness :
  options (fst (Sample.request Sample.rurl (VString "<x/>") None None 0))
  = fst (Sample.buildRequest Sample.rurl (VString "<x/>") None None 0).
Proof.
  apply (buildRequest_body_or_multipart Sample.VERSION Sample.url_parse nat Sample.uuid
           Sample.rurl (VString "<x/>") None None 0); reflexivity.
Defined.

(** C6 fails as stated: a part whose Content-Disposition is spelled
    [ATTACHMENT] is parsed, and is not among the attachments. *)
Lemma attachments_counterexample :
  let part :=
    MimePart.Make [("Content-Disposition", Some "ATTACHMENT; filename=a.bin")]
                  ("DATA" ++ CRLF) in
  (exists text before after,
      Sample.on_response VNull (Some sample_response) sample_multipart
      = Callback (Some sample_response) text [] (before ++ part :: after)%list) /\
  (exists name value a b,
      get name (MimePart.headers part) = Some (Some value) /\
      toLowerCase name = "content-disposition" /\
      toLowerCase value = a ++ "attachment" ++ b).
Proof.
  split.
  - eexists _, [_], [_]. vm_compute. reflexivity.
  - exists "Content-Disposition", "ATTACHMENT; filename=a.bin",
      EmptyString, "; filename=a.bin".
    repeat split.
Qed.

Lemma attachments_are_marked_parts_witness :
  Sample.on_response VNull (Some sample_response) sample_multipart
  = Callback (Some sample_response)
             (handleResponse (VString (Sample.utf8_decode sample_multipart)))
             (filter is_attachment
                     (handleMultipart (Some sample_response) (VString sample_multipart)))
             (handleMultipart (Some sample_response) (VString sample_multipart)).
Proof.
  apply (attachments_are_marked_parts Sample.utf8_decode VNull
           (Some sample_response) sample_multipart eq_refl).
Defined.


(* ================================================================== *)
(** ** Splitting on a string *)

Module SplitFacts.
Import StringFacts.

Lemma app_empty_r (u : string) : u ++ EmptyString = u.
Proof. induction u as [|a u IH]; simpl; [reflexivity | now rewrite IH]. Qed.

Lemma app_inj_length : forall a a' x y,
  String.length a = String.length a' -> a ++ x = a' ++ y -> a = a' /\ x = y.
Proof.
  induction a as [|c a IH]; intros [|c' a'] x y Hl H; simpl in *; try discriminate.
  - now split.
  - injection H as -> H. injection Hl as Hl.
    destruct (IH a' x y Hl H) as [-> ->]. now split.
Qed.

Lemma join_cons sep p pieces :
  pieces <> [] -> join sep (p :: pieces) = p ++ sep ++ join sep pieces.
Proof. destruct pieces; [contradiction | reflexivity]. Qed.

Lemma split_loop_nonempty f : forall s acc n, split_loop f acc n s <> [].
Proof.
  induction s as [|a s IH]; intros acc n; cbn [split_loop]; [discriminate|].
  destruct n as [|n]; [|apply IH].
  destruct (f (String a s)) as [s'|]; [|apply IH].
  destruct (String.length (String a s) - String.length s'); [|discriminate].
  destruct acc; [apply IH | discriminate].
Qed.

(** Passing over the rest of a separator. *)
Lemma split_loop_skip f acc : forall w s',
  split_loop f acc (String.length w) (w ++ s') = split_loop f acc 0 s'.
Proof.
  induction w as [|x w IH]; intros s'; [reflexivity|]. simpl. apply IH.
Qed.

Section Separator.
Variable c : ascii.
Variable sep' : string.
Local Abbreviation sep := (String c sep').
Local Abbreviation f := (strip_prefix sep).

Lemma split_is_loop s : JsString.split s sep = split_loop f EmptyString 0 s.
Proof. destruct s; reflexivity. Qed.

(** At a separator the piece is closed and the scan goes on after it. *)
Lemma split_loop_at_separator acc s' :
  split_loop f acc 0 (sep ++ s') = acc :: split_loop f EmptyString 0 s'.
Proof.
  change (sep ++ s') with (String c (sep' ++ s')).
  cbn [split_loop].
  assert (f (String c (sep' ++ s')) = Some s') as ->
      by (apply strip_prefix_app; reflexivity).
  replace (String.length (String c (sep' ++ s')) - String.length s')
    with (S (String.length sep'))
    by (change (String.length (String c (sep' ++ s')))
          with (S (String.length (sep' ++ s'))); rewrite length_app; lia).
  now rewrite split_loop_skip.
Qed.

Lemma split_loop_no_separator acc a t :
  f (String a t) = None ->
  split_loop f acc 0 (String a t) = split_loop f (acc ++ String a EmptyString) 0 t.
Proof. intros H. cbn [split_loop]. now rewrite H. Qed.

Lemma split_loop_join : forall n s acc,
  String.length s <= n -> join sep (split_loop f acc 0 s) = acc ++ s.
Proof.
  induction n as [|n IH]; intros s acc Hn.
  - assert (s = EmptyString) as -> by (apply length_zero; lia).
    simpl. now rewrite app_empty_r.
  - destruct s as [|a t]; [simpl; now rewrite app_empty_r|].
    destruct (f (String a t)) as [s'|] eqn:E.
    + apply strip_prefix_app in E. rewrite E.
      rewrite split_loop_at_separator, join_cons by apply split_loop_nonempty.
      rewrite IH; [reflexivity|].
      rewrite E in Hn. rewrite length_app in Hn. simpl in Hn. lia.
    + rewrite split_loop_no_separator by exact E.
      rewrite IH by (simpl in Hn; lia).
      now rewrite app_assoc.
Qed.

Lemma split_loop_free : forall n s acc,
  String.length s <= n ->
  (forall a b, acc ++ s = a ++ sep ++ b -> String.length acc <= String.length a) ->
  Forall (fun piece => ~ holds sep piece) (split_loop f acc 0 s).
Proof.
  induction n as [|n IH]; intros s acc Hn Hacc.
  - assert (s = EmptyString) as -> by (apply length_zero; lia).
    simpl. constructor; [|constructor].
    intros (a & b & Hab). specialize (Hacc a b). rewrite app_empty_r in Hacc.
    specialize (Hacc Hab). rewrite Hab, !length_app in Hacc. simpl in Hacc. lia.
  - destruct s as [|x t].
    + simpl. constructor; [|constructor].
      intros (a & b & Hab). specialize (Hacc a b). rewrite app_empty_r in Hacc.
      specialize (Hacc Hab). rewrite Hab, !length_app in Hacc. simpl in Hacc. lia.
    + destruct (f (String x t)) as [s'|] eqn:E.
      * apply strip_prefix_app in E. rewrite E in *.
        rewrite split_loop_at_separator. constructor.
        -- intros (a & b & Hab).
           specialize (Hacc a (b ++ sep ++ s')).
           rewrite Hab, !app_assoc in Hacc. specialize (Hacc eq_refl).
           rewrite !length_app in Hacc. simpl in Hacc. lia.
        -- apply IH; [rewrite length_app in Hn; simpl in Hn; lia|].
           intros a b _. simpl. lia.
      * rewrite split_loop_no_separator by exact E.
        apply IH; [simpl in Hn; lia|].
        intros a b Hab. rewrite app_assoc in Hab.
        change (String x EmptyString ++ t) with (String x t) in Hab.
        pose proof (Hacc a b Hab) as Hle.
        rewrite length_app. simpl.
        destruct (Nat.eq_dec (String.length acc) (String.length a)) as [Heq|]; [|lia].
        exfalso. destruct (app_inj_length _ _ _ _ Heq Hab) as [_ Hs].
        apply (proj2 (strip_prefix_app sep (String x t) b)) in Hs.
        congruence.
Qed.

End Separator.

(** The pieces that [split] cuts on a separator that is not empty: joined
    by the separator they give the string back, and none holds the
    separator. *)
Lemma split_pieces s sep :
  sep <> EmptyString ->
  JsString.split s sep <> [] /\
  join sep (JsString.split s sep) = s /\
  Forall (fun piece => ~ holds sep piece) (JsString.split s sep).
Proof.
  intros Hne. destruct sep as [|c sep']; [contradiction|].
  rewrite split_is_loop. split; [apply split_loop_nonempty|]. split.
  - now rewrite (split_loop_join c sep' (String.length s) s EmptyString).
  - apply (split_loop_free c sep' (String.length s)); [lia|].
    intros a b _. simpl. lia.
Qed.

End SplitFacts.

(* ================================================================== *)
(** ** Header lines *)

Module HeaderFacts.
Import StringFacts SplitFacts.

Local Abbreviation colon_split := (strip_prefix ":").

Lemma colon_split_other a t :
  Ascii.eqb ":" a = false -> colon_split (String a t) = None.
Proof. intros H. cbn [strip_prefix]. now rewrite H. Qed.

Lemma split_colon s :
  JsString.split s ":" = split_loop colon_split EmptyString 0 s.
Proof. apply (split_is_loop ":"%char EmptyString). Qed.


Lemma split_loop_first_colon : forall name acc rest,
  contains_unit ":" name = false ->
  split_loop colon_split acc 0 (name ++ ":" ++ rest)
  = (acc ++ name) :: split_loop colon_split EmptyString 0 rest.
Proof.
  induction name as [|a name IH]; intros acc rest H.
  - rewrite app_empty_r.
    apply (split_loop_at_separator ":"%char EmptyString acc rest).
  - cbn [contains_unit] in H. apply orb_false_iff in H. destruct H as [Ha Hs].
    change (String a name ++ ":" ++ rest) with (String a (name ++ ":" ++ rest)).
    rewrite (split_loop_no_separator ":"%char EmptyString)
      by (apply colon_split_other, Ha).
    rewrite IH by exact Hs. now rewrite app_assoc.
Qed.



End HeaderFacts.



(** X8.  An empty line and a line that starts with a colon leave the header
    map as it is. *)
Theorem header_line_without_name headers :
  header_line headers EmptyString = headers /\
  forall rest, header_line headers (":" ++ rest) = headers.
Proof.
  split; [reflexivity|]. intros rest. unfold header_line.
  rewrite HeaderFacts.split_colon.
  change (":" ++ rest) with (EmptyString ++ ":" ++ rest).
  rewrite (HeaderFacts.split_loop_first_colon EmptyString EmptyString rest eq_refl).
  reflexivity.
Qed.

(* ================================================================== *)
(** ** The leftmost match *)

Module ExecFacts.
Import StringFacts RegexFacts PatternFacts SegmentFacts.

Lemma exec_from_first ic r : forall s i mr,
  exec_from ic r i s = Some mr ->
  exists pre t s',
    s = pre ++ t /\ index mr = i + String.length pre /\
    match_here ic r t = Some (s', groups mr) /\ matched mr = consumed t s' /\
    (forall pre' t', s = pre' ++ t' -> String.length pre' < String.length pre ->
                     match_here ic r t' = None).
Proof.
  induction s as [|a s IH]; intros i mr H; simpl in H.
  - destruct (match_here ic r EmptyString) as [[s' c]|] eqn:E; [|discriminate].
    injection H as <-. exists EmptyString, EmptyString, s'. simpl.
    repeat split; auto. intros pre' t' _ Hl. lia.
  - destruct (match_here ic r (String a s)) as [[s' c]|] eqn:E.
    + injection H as <-. exists EmptyString, (String a s), s'. simpl.
      repeat split; auto. intros pre' t' _ Hl. lia.
    + apply IH in H. destruct H as (pre & t & s' & -> & Hi & Hm & Hc & Hfirst).
      exists (String a pre), t, s'. simpl. repeat split; auto; [lia|].
      intros [|b pre'] t' Ht Hl; simpl in Ht.
      * now subst t'.
      * injection Ht as _ Ht. apply (Hfirst pre' t' Ht). simpl in Hl. lia.
Qed.

Lemma exec_some_occurs ic r s mr : exec ic r s = Some mr -> occurs ic r s.
Proof.
  intros H. destruct (exec ic r s) eqn:E; [|discriminate].
  assert (exec ic r s <> None) as Hn by congruence.
  rewrite exec_none_iff in Hn.
  unfold exec in E. apply exec_from_some in E.
  destruct E as (pre & t & s' & -> & _ & Hm & _).
  unfold match_here in Hm. apply m_sound in Hm.
  destruct Hm as (s1 & c1 & Hm & _). now exists pre, t, s1, c1.
Qed.

(** The text that [exec] returns stands in the input and is itself a match
    of the pattern from its first unit to its last. *)
Lemma exec_matched_whole ic r s mr :
  exec ic r s = Some mr ->
  (exists pre post, s = pre ++ matched mr ++ post) /\
  matches ic r (matched mr) [] EmptyString (groups mr).
Proof.
  intros H. split.
  - unfold exec in H. apply exec_from_some in H.
    destruct H as (pre & t & s' & -> & _ & Hm & Hc).
    exists pre, s'. rewrite Hc. f_equal. now apply match_here_split in Hm.
  - apply exec_matched in H. unfold exec in H. apply exec_from_some in H.
    destruct H as (pre & t & s' & Hs & Hi & Hm & Hc). simpl in *.
    destruct pre; [|simpl in Hi; lia]. simpl in Hs. subst t.
    pose proof (match_here_split _ _ _ _ _ Hm) as Ht. rewrite <- Hc in Ht.
    assert (s' = EmptyString) as ->.
    { apply length_zero. apply (f_equal String.length) in Ht.
      rewrite length_app in Ht. lia. }
    unfold match_here in Hm. apply m_sound in Hm.
    destruct Hm as (s1 & c1 & Hm & [= -> ->]). exact Hm.
Qed.

Lemma drop_app : forall u n v, drop (String.length u + n) (u ++ v) = drop n v.
Proof. induction u as [|a u IH]; intros n v; simpl; [reflexivity | apply IH]. Qed.

Lemma substring_take s n :
  n <= String.length s -> substring s 0 (Some (Z.of_nat n)) = take n s.
Proof.
  intros H. unfold substring.
  replace (Z.min (Z.max 0 0) (Z.of_nat (String.length s))) with 0%Z by lia.
  replace (Z.min (Z.max (Z.of_nat n) 0) (Z.of_nat (String.length s)))
    with (Z.of_nat n) by lia.
  replace (Z.max 0 (Z.of_nat n)) with (Z.of_nat n) by lia.
  replace (Z.min 0 (Z.of_nat n)) with 0%Z by lia.
  rewrite Z.sub_0_r, Nat2Z.id. reflexivity.
Qed.

Lemma substring_drop s n :
  n <= String.length s -> substring s (Z.of_nat n) None = drop n s.
Proof.
  intros H. unfold substring.
  replace (Z.min (Z.max (Z.of_nat n) 0) (Z.of_nat (String.length s)))
    with (Z.of_nat n) by lia.
  replace (Z.min (Z.of_nat n) (Z.of_nat (String.length s))) with (Z.of_nat n) by lia.
  replace (Z.max (Z.of_nat n) (Z.of_nat (String.length s)))
    with (Z.of_nat (String.length s)) by lia.
  rewrite Nat2Z.id.
  replace (Z.to_nat (Z.of_nat (String.length s) - Z.of_nat n))
    with (String.length (drop n s)) by (rewrite length_drop; lia).
  apply take_all.
Qed.

(** Where the search for the blank line stops: at its first occurrence. *)
Lemma search_blank_line h b :
  (forall pre post,
      h ++ CRLF ++ CRLF ++ b = pre ++ CRLF ++ CRLF ++ post ->
      String.length h <= String.length pre) ->
  Regex.search false blank_line_re (h ++ CRLF ++ CRLF ++ b)
  = Z.of_nat (String.length h).
Proof.
  intros Hfirst. unfold Regex.search.
  destruct (exec false blank_line_re (h ++ CRLF ++ CRLF ++ b)) as [mr|] eqn:E.
  - unfold exec in E. apply exec_from_first in E.
    destruct E as (pre & t & s' & Hs & Hi & Hm & _ & Hleft).
    assert (t = (CRLF ++ CRLF) ++ s') as Ht.
    { unfold match_here in Hm. apply m_sound in Hm.
      destruct Hm as (s1 & c1 & Hm & [= -> _]).
      apply (matches_lit_inv false (CRLF ++ CRLF)) in Hm.
      destruct Hm as (_ & x & -> & Hx). apply ci_equal_exact in Hx. now subst x. }
    subst t. rewrite (app_assoc CRLF CRLF s') in Hs.
    pose proof (Hfirst pre s' Hs) as Hle.
    destruct (Nat.eq_dec (String.length h) (String.length pre)) as [Heq|Hne].
    + rewrite Hi, Heq. reflexivity.
    + exfalso.
      assert (match_here false blank_line_re (CRLF ++ CRLF ++ b) = None) as Hnone
          by (apply (Hleft h); [reflexivity | lia]).
      revert Hnone. unfold match_here.
      apply (m_complete false blank_line_re _ [] b []); [|discriminate].
      rewrite <- (app_assoc CRLF CRLF b).
      apply matches_lit_intro. now apply ci_equal_exact.
  - exfalso. apply exec_none_iff in E. apply E.
    apply blank_line_occurs. now exists h, b.
Qed.

Lemma char_eq_colon a : char_eq true a ":" = true -> a = ":"%char.
Proof.
  destruct a as [[|] [|] [|] [|] [|] [|] [|] [|]]; vm_compute; intros H;
    first [reflexivity | discriminate].
Qed.

(** A match of the envelope pattern has a colon in it. *)
Lemma envelope_match_has_colon t s' c :
  matches true envelope_re t [] s' c -> contains_unit ":" t = true.
Proof.
  unfold envelope_re. intros H.
  inversion H as [| | |? ? ? ? s1 c1 ? ? H1 H2| | | | | | |]; subst.
  apply matches_suffix in H1. destruct H1 as (w1 & ->).
  inversion H2 as [| | |? ? ? ? s2 c2 ? ? H3 H4| | | | | | |]; subst.
  inversion H3; subst.
  inversion H4 as [| | |? ? ? ? s3 c3 ? ? H5 H6| | | | | | |]; subst.
  apply matches_suffix in H5. destruct H5 as (w2 & ->).
  inversion H6 as [| | |? ? ? ? s4 c4 ? ? H7 H8| | | | | | |]; subst.
  apply (matches_lit_inv true ":Envelope") in H7.
  destruct H7 as (_ & x & -> & Hx).
  destruct x as [|a0 x]; [discriminate|].
  cbn [ci_equal] in Hx. apply andb_prop in Hx. destruct Hx as [Ha _].
  apply char_eq_colon in Ha. subst a0.
  rewrite contains_unit_app. cbn [contains_unit].
  rewrite contains_unit_app. cbn [contains_unit append].
  rewrite Ascii.eqb_refl. now rewrite !orb_true_r.
Qed.

End ExecFacts.

(** X5.  Where a segment holds CR LF CR LF, the part is cut at the first
    occurrence: its headers are read from what stands before and its data
    is all that follows the four units. *)
Theorem parse_segment_at_blank_line h b :
  (forall pre post,
      h ++ CRLF ++ CRLF ++ b = pre ++ CRLF ++ CRLF ++ post ->
      String.length h <= String.length pre) ->
  parse_segment (h ++ CRLF ++ CRLF ++ b)
  = MimePart.Make
      (fold_left header_line (Regex.split false line_break_re h) []) b.
Proof.
  intros Hfirst. unfold parse_segment.
  rewrite (ExecFacts.search_blank_line h b Hfirst).
  rewrite ExecFacts.substring_take
    by (rewrite StringFacts.length_app; lia).
  rewrite StringFacts.take_length_app.
  replace (Z.of_nat (String.length h) + 4)%Z
    with (Z.of_nat (String.length h + 4)) by lia.
  rewrite ExecFacts.substring_drop
    by (rewrite !StringFacts.length_app; simpl; lia).
  rewrite ExecFacts.drop_app. reflexivity.
Qed.

(** X1.  The text that [handleResponse] returns for a string is cut out of
    it: the body is that text with something before and something after. *)
Theorem handleResponse_cuts_substring (body : string) :
  exists pre out post,
    handleResponse (VString body) = VString out /\ body = pre ++ out ++ post.
Proof.
  unfold handleResponse.
  destruct (exec true envelope_re body) as [mr|] eqn:E.
  - destruct (ExecFacts.exec_matched_whole _ _ _ _ E) as [(pre & post & H) _].
    now exists pre, (matched mr), post.
  - exists EmptyString, body, EmptyString. split; [reflexivity|].
    simpl. now rewrite SplitFacts.app_empty_r.
Qed.

(** X2.  When the envelope pattern has a match in the body, the text that
    [handleResponse] returns is a match of the pattern from its first unit
    to its last. *)
Theorem handleResponse_returns_envelope (body : string) :
  occurs true envelope_re body ->
  exists out c,
    handleResponse (VString body) = VString out /\
    matches true envelope_re out [] EmptyString c.
Proof.
  intros H. unfold handleResponse.
  destruct (exec true envelope_re body) as [mr|] eqn:E.
  - exists (matched mr), (groups mr). split; [reflexivity|].
    now apply ExecFacts.exec_matched_whole in E.
  - apply RegexFacts.exec_none_iff in E. contradiction.
Qed.

(** X3.  A body without a colon is returned as it is: an envelope whose tags
    carry no namespace prefix is not cut out of its surroundings. *)
Theorem handleResponse_needs_prefix (body : string) :
  contains_unit ":" body = false ->
  handleResponse (VString body) = VString body.
Proof.
  intros H.
  assert (exec true envelope_re body = None) as E.
  { apply RegexFacts.exec_none_iff.
    intros (pre & t & s' & c & -> & Hm).
    apply ExecFacts.envelope_match_has_colon in Hm.
    rewrite PatternFacts.contains_unit_app, Hm, orb_true_r in H. discriminate. }
  unfold handleResponse. now rewrite E.
Qed.

(* ================================================================== *)
(** ** Header maps and descriptors *)

Module MapFacts.
Import ObjectFacts.

Section Keys.
Context {A : Type}.
Implicit Types (o dst src : obj A) (k : string) (v : A).

Lemma keys_set k v o k' :
  In k' (map fst (set k v o)) <-> k' = k \/ In k' (map fst o).
Proof.
  induction o as [|[k1 v1] o IH]; simpl.
  - intuition congruence.
  - destruct (String.eqb_spec k1 k) as [->|Hne]; simpl.
    + intuition congruence.
    + rewrite IH. intuition congruence.
Qed.

(** Writing a property never gives a name twice. *)
Lemma set_NoDup k v o : NoDup (map fst o) -> NoDup (map fst (set k v o)).
Proof.
  induction o as [|[k1 v1] o IH]; intros H; simpl.
  - constructor; [intros [] | constructor].
  - inversion H as [|? ? Hin Hnd]; subst.
    destruct (String.eqb_spec k1 k) as [->|Hne]; simpl.
    + now constructor.
    + constructor; [|now apply IH].
      rewrite keys_set. intros [->|Hin']; [congruence | contradiction].
Qed.

Lemma get_not_in k o : ~ In k (map fst o) -> get k o = None.
Proof.
  induction o as [|[k1 v1] o IH]; simpl; [reflexivity|]. intros H.
  destruct (String.eqb_spec k1 k) as [->|]; [tauto|]. apply IH. tauto.
Qed.

Lemma get_delete_same k o : get k (delete k o) = None.
Proof.
  induction o as [|[k1 v1] o IH]; simpl; [reflexivity|].
  destruct (String.eqb_spec k1 k) as [->|Hne]; simpl; [exact IH|].
  destruct (String.eqb_spec k1 k); [contradiction | exact IH].
Qed.

Lemma get_delete_other k k' o : k' <> k -> get k (delete k' o) = get k o.
Proof.
  intros Hne. induction o as [|[k1 v1] o IH]; simpl; [reflexivity|].
  destruct (String.eqb_spec k1 k') as [->|H1]; simpl.
  - destruct (String.eqb_spec k' k); [contradiction | assumption].
  - destruct (String.eqb_spec k1 k); [reflexivity | assumption].
Qed.

(** A property of [src] overrides the one of [dst]. *)
Lemma get_assign_some k v src : forall dst,
  NoDup (map fst src) -> get k src = Some v -> get k (assign dst src) = Some v.
Proof.
  unfold assign. induction src as [|[k1 v1] src IH]; intros dst Hnd H; simpl in *.
  - discriminate.
  - inversion Hnd as [|? ? Hin Hnd']; subst.
    destruct (String.eqb_spec k1 k) as [->|Hne].
    + injection H as ->.
      fold (assign (set k v dst) src). rewrite get_assign_none.
      * apply get_set_same.
      * now apply get_not_in.
    + now apply IH.
Qed.

Lemma delete_NoDup k o : NoDup (map fst o) -> NoDup (map fst (delete k o)).
Proof.
  induction o as [|[k1 v1] o IH]; intros H; simpl; [constructor|].
  inversion H as [|? ? Hin Hnd]; subst.
  destruct (String.eqb k1 k); simpl; [now apply IH|].
  constructor; [|now apply IH].
  intros Hin'. apply Hin. clear -Hin'.
  induction o as [|[k2 v2] o IH]; simpl in *; [contradiction|].
  destruct (String.eqb k2 k); simpl in *; tauto.
Qed.

End Keys.

Lemma header_line_NoDup headers line :
  NoDup (map fst headers) -> NoDup (map fst (header_line headers line)).
Proof.
  intros H. unfold header_line.
  destruct (nth_error (JsString.split line ":") 0) as [name|]; [|exact H].
  destruct (negb (String.eqb name EmptyString)); [|exact H].
  now apply set_NoDup.
Qed.

Lemma fold_header_line_NoDup lines : forall headers,
  NoDup (map fst headers) ->
  NoDup (map fst (fold_left header_line lines headers)).
Proof.
  induction lines as [|line lines IH]; intros headers H; simpl; [exact H|].
  apply IH. now apply header_line_NoDup.
Qed.

End MapFacts.

(** X9.  No header name occurs twice in the header map of a parsed part. *)
Theorem parsed_headers_unique seg :
  NoDup (map fst (MimePart.headers (parse_segment seg))).
Proof.
  unfold parse_segment. cbn [MimePart.headers].
  apply MapFacts.fold_header_line_NoDup. constructor.
Qed.


(* ================================================================== *)
(** ** The segments of a multipart body *)

Module MultipartFacts.
Import StringFacts RegexFacts PatternFacts ExecFacts.

(** What [exec] finds with the boundary pattern: the first token. *)
Lemma boundary_exec_first ct :
  has_boundary_token ct ->
  exists mr token,
    exec true boundary_re ct = Some mr /\
    get_capture 1 (groups mr) = Some token /\
    first_boundary_token ct token.
Proof.
  intros Htok.
  destruct (exec true boundary_re ct) as [mr|] eqn:E;
    [|apply boundary_exec_none in E; contradiction].
  unfold exec in E. apply exec_from_first in E.
  destruct E as (pre & t & s' & -> & _ & Hm & _ & Hleft).
  unfold match_here in Hm. apply m_sound in Hm.
  destruct Hm as (s1 & c1 & Hm & [= -> ->]).
  apply boundary_match_iff in Hm.
  destruct Hm as (name & token & -> & Hn & Ht & Hg).
  exists mr, token. split; [reflexivity|]. split; [now rewrite Hg|].
  exists pre. split; [now exists name, s'|].
  intros pre' token' (name' & post' & Hct & Hn' & Ht').
  destruct (Nat.le_gt_cases (String.length pre) (String.length pre')) as [|Hlt];
    [assumption|].
  exfalso.
  assert (match_here true boundary_re (name' ++ DQ ++ token' ++ DQ ++ post') = None)
    as Hnone by (apply (Hleft pre'); assumption).
  revert Hnone. unfold match_here.
  apply (m_complete true boundary_re _ [] post' [(1, token')]); [|discriminate].
  apply boundary_match_iff. now exists name', token'.
Qed.

End MultipartFacts.

(** X4.  With a [boundary="..."] token in the Content-Type, the parts are
    the segments of the body in their order: the segments are what the body
    is cut into at every [--] followed by the text of the first token, so
    that joined by that delimiter they give the body back and none of them
    holds the delimiter; there is always at least one. *)
Theorem handleMultipart_segments res ct body :
  content_type res = Some ct ->
  has_boundary_token ct ->
  exists token segments,
    first_boundary_token ct token /\
    segments <> [] /\
    join ("--" ++ token) segments = body /\
    Forall (fun segment => ~ holds ("--" ++ token) segment) segments /\
    handleMultipart res (VString body) = map parse_segment segments.
Proof.
  intros Hct Htok.
  destruct (MultipartFacts.boundary_exec_first ct Htok)
    as (mr & token & E & Hg & Hfirst).
  exists token, (JsString.split body ("--" ++ token)).
  split; [exact Hfirst|].
  destruct (SplitFacts.split_pieces body ("--" ++ token)) as (H1 & H2 & H3);
    [discriminate|].
  repeat (split; [assumption|]).
  unfold handleMultipart. destruct res as [r|]; [|discriminate].
  simpl in Hct. rewrite Hct.
  destruct (String.eqb_spec ct EmptyString) as [->|_].
  - discriminate.
  - now rewrite E, Hg.
Qed.

(* ================================================================== *)
(** ** The port of the Host header *)

Module PortFacts.






End PortFacts.

(* ================================================================== *)
(** ** The headers and options of a request *)

Section Descriptor.

Variable VERSION : string.
Variable url_parse : string -> Url.t.
Variable rng : Type.
Variable uuid : rng -> string * rng.

Local Abbreviation built := (buildRequest VERSION url_parse uuid).

(** The header map of the descriptor, when the extra options do not
    replace it. *)
Lemma buildRequest_headers rurl data exheaders exoptions g :
  get "headers" (or_empty exoptions) = None ->
  get "headers" (fst (built rurl data exheaders exoptions g))
  = Some (VObject
            (let merged := merged_headers VERSION (url_parse rurl) exheaders in
             if isEmpty (prop "attachments" (or_empty exoptions)) then
               match data with
               | VString text =>
                   set "Content-Length" (VNumber (utf8_byteLength text)) merged
               | _ => merged
               end
             else
               set "content-type"
                   (VString (multipart_content_type
                               (fst (uuid (snd (uuid g)))) (fst (uuid g))))
                   (delete "SOAPAction" merged))).
Proof.
  intros Hh. unfold buildRequest, merged_headers.
  rewrite ObjectFacts.isEmpty_or_else.
  destruct (isEmpty (prop "attachments" (or_empty exoptions))) eqn:Ee.
  - destruct data; cbn [fst];
      (rewrite ObjectFacts.get_assign_none
        by (now apply ObjectFacts.get_delete_none));
      match goal with |- context [if ?b then _ else _] => destruct b end;
      reflexivity.
  - destruct (uuid g) as [start g1] eqn:E1.
    destruct (uuid g1) as [boundary g2] eqn:E2.
    destruct data; cbn [fst snd]; rewrite ?E2; cbn [fst snd];
      (rewrite ObjectFacts.get_assign_none
        by (now apply ObjectFacts.get_delete_none));
      reflexivity.
Qed.

(** X11.  With attachments, the header map of the descriptor has no
    [SOAPAction], whatever the extra headers carry, and no [Content-Length]
    unless the extra headers carry one. *)
Theorem multipart_headers rurl data exheaders exoptions g :
  isEmpty (prop "attachments" (or_empty exoptions)) = false ->
  get "headers" (or_empty exoptions) = None ->
  exists headers,
    get "headers" (fst (built rurl data exheaders exoptions g))
    = Some (VObject headers) /\
    get "SOAPAction" headers = None /\
    (get "Content-Length" (or_empty exheaders) = None ->
     get "Content-Length" headers = None).
Proof.
  intros He Hh. eexists. split.
  - rewrite (buildRequest_headers rurl data exheaders exoptions g Hh).
    rewrite He. reflexivity.
  - cbv zeta. split.
    + rewrite ObjectFacts.get_set_other by discriminate.
      apply MapFacts.get_delete_same.
    + intros Hcl. rewrite ObjectFacts.get_set_other by discriminate.
      rewrite MapFacts.get_delete_other by discriminate.
      unfold merged_headers. rewrite ObjectFacts.get_assign_none by exact Hcl.
      reflexivity.
Qed.

(** X12.  Without attachments, the [Content-Length] of a string payload is
    its length in UTF-8 octets, also when the extra headers carry another
    one. *)
Theorem content_length_of_payload rurl text exheaders exoptions g :
  isEmpty (prop "attachments" (or_empty exoptions)) = true ->
  get "headers" (or_empty exoptions) = None ->
  exists headers,
    get "headers" (fst (built rurl (VString text) exheaders exoptions g))
    = Some (VObject headers) /\
    get "Content-Length" headers = Some (VNumber (utf8_byteLength text)).
Proof.
  intros He Hh. eexists. split.
  - rewrite (buildRequest_headers rurl (VString text) exheaders exoptions g Hh).
    rewrite He. reflexivity.
  - cbv zeta. apply ObjectFacts.get_set_same.
Qed.

(** X13.  An extra header other than [Content-Length], [content-type] and
    [SOAPAction] reaches the descriptor with the value given, in place of
    the baseline header of that name. *)
Theorem extra_header_overrides rurl data exheaders exoptions g k v :
  NoDup (map fst (or_empty exheaders)) ->
  get k (or_empty exheaders) = Some v ->
  k <> "Content-Length" -> k <> "content-type" -> k <> "SOAPAction" ->
  get "headers" (or_empty exoptions) = None ->
  exists headers,
    get "headers" (fst (built rurl data exheaders exoptions g))
    = Some (VObject headers) /\
    get k headers = Some v.
Proof.
  intros Hnd Hk H1 H2 H3 Hh. eexists. split.
  - apply (buildRequest_headers rurl data exheaders exoptions g Hh).
  - cbv zeta.
    assert (get k (merged_headers VERSION (url_parse rurl) exheaders) = Some v) as Hm
        by (unfold merged_headers; now apply MapFacts.get_assign_some).
    destruct (isEmpty (prop "attachments" (or_empty exoptions))).
    + destruct data; try exact Hm.
      rewrite ObjectFacts.get_set_other by congruence. exact Hm.
    + rewrite ObjectFacts.get_set_other by congruence.
      rewrite MapFacts.get_delete_other by congruence. exact Hm.
Qed.

(** X14.  The attachment map itself is never copied into the descriptor. *)
Theorem attachments_not_in_descriptor rurl data exheaders exoptions g :
  get "attachments" (fst (built rurl data exheaders exoptions g)) = None.
Proof.
  destruct (buildRequest_unfold VERSION url_parse rng uuid
              rurl data exheaders exoptions g)
    as (headers & multipart & g' & E & _).
  rewrite E. cbn [fst].
  rewrite ObjectFacts.get_assign_none by apply MapFacts.get_delete_same.
  cbv zeta. destruct (_ && _); reflexivity.
Qed.

(** X15.  Every other entry of the extra options is in the descriptor with
    its value, whatever [buildRequest] had put under that name. *)
Theorem extra_option_overrides rurl data exheaders exoptions g k v :
  NoDup (map fst (or_empty exoptions)) ->
  get k (or_empty exoptions) = Some v ->
  k <> "attachments" ->
  get k (fst (built rurl data exheaders exoptions g)) = Some v.
Proof.
  intros Hnd Hk Hne.
  destruct (buildRequest_unfold VERSION url_parse rng uuid
              rurl data exheaders exoptions g)
    as (headers & multipart & g' & E & _).
  rewrite E. cbn [fst].
  apply MapFacts.get_assign_some.
  - now apply MapFacts.delete_NoDup.
  - unfold omit. rewrite MapFacts.get_delete_other by congruence. exact Hk.
Qed.


(** X21.  When the extra options replace [headers] by [null] or
    [undefined], [request] raises a TypeError after the hand-over if there
    is no attachment, and does not read the headers at all if there is
    one. *)
Theorem request_reads_replaced_headers rurl data exheaders exoptions g v :
  NoDup (map fst (or_empty exoptions)) ->
  get "headers" (or_empty exoptions) = Some v ->
  v = VNull \/ v = VUndefined ->
  flush (fst (request VERSION url_parse uuid rurl data exheaders exoptions g))
  = if isEmpty (prop "attachments" (or_empty exoptions)) then TypeError else NoEnd.
Proof.
  intros Hnd Hh Hv. rewrite request_unfold. cbn [fst flush].
  destruct (isEmpty (prop "attachments" (or_empty exoptions))); [|reflexivity].
  assert (get "headers" (fst (built rurl data exheaders exoptions g)) = Some v) as E.
  { destruct (buildRequest_unfold VERSION url_parse rng uuid
                rurl data exheaders exoptions g)
      as (headers & multipart & g' & E & _).
    rewrite E. cbn [fst]. apply MapFacts.get_assign_some.
    - now apply MapFacts.delete_NoDup.
    - unfold omit. rewrite MapFacts.get_delete_other by discriminate. exact Hh. }
  unfold prop. rewrite E. destruct Hv as [-> | ->]; reflexivity.
Qed.

End Descriptor.

(* ================================================================== *)
(** ** The first version of the client *)

Section FirstVersion.

Variable VERSION : string.
Variable url_parse : string -> Url.t.

Local Abbreviation built1 := (HttpClientFirst.buildRequest VERSION url_parse).

Lemma first_buildRequest_get k rurl data exheaders exoptions :
  get k (or_empty exoptions) = None ->
  get k (built1 rurl data exheaders exoptions)
  = get k (let options :=
             [("uri", Url_value (url_parse rurl));
              ("method", VString (if truthy data then "POST" else "GET"));
              ("headers", VObject (first_headers VERSION (url_parse rurl) data exheaders));
              ("followAllRedirects", VBool true)] in
           if keep_alive (first_headers VERSION (url_parse rurl) data exheaders)
           then set "body" data options else options).
Proof.
  intros Hk. unfold HttpClientFirst.buildRequest.
  rewrite ObjectFacts.get_assign_none by exact Hk.
  unfold first_headers, base_headers. destruct data; reflexivity.
Qed.

(** X17.  In the first version the payload goes out once: as the [body] of
    the descriptor when the [Connection] header is [keep-alive], through
    [req.end] otherwise, when the extra options replace neither [body] nor
    [headers]. *)
Theorem first_version_sends_payload_once rurl data exheaders exoptions :
  get "body" (or_empty exoptions) = None ->
  get "headers" (or_empty exoptions) = None ->
  let exchange :=
    HttpClientFirst.request VERSION url_parse rurl data exheaders exoptions in
  exists headers,
    get "headers" (options exchange) = Some (VObject headers) /\
    if keep_alive headers
    then get "body" (options exchange) = Some data /\ flush exchange = NoEnd
    else get "body" (options exchange) = None /\ flush exchange = EndWith data.
Proof.
  intros Hb Hh exchange. subst exchange.
  unfold HttpClientFirst.request. cbn [options flush].
  exists (first_headers VERSION (url_parse rurl) data exheaders).
  assert (get "headers" (built1 rurl data exheaders exoptions)
          = Some (VObject (first_headers VERSION (url_parse rurl) data exheaders))) as Hhd.
  { rewrite (first_buildRequest_get _ _ _ _ _ Hh). cbv zeta.
    destruct (keep_alive _); reflexivity. }
  split; [exact Hhd|].
  unfold prop. rewrite Hhd. cbn [own_entries].
  rewrite (first_buildRequest_get _ _ _ _ _ Hb). cbv zeta.
  destruct (keep_alive (first_headers VERSION (url_parse rurl) data exheaders)); split; reflexivity.
Qed.

(** X18.  In the first version a [Content-Length] among the extra headers
    replaces the one computed from a string payload. *)
Theorem first_version_extra_content_length rurl data exheaders exoptions v :
  NoDup (map fst (or_empty exheaders)) ->
  get "Content-Length" (or_empty exheaders) = Some v ->
  get "headers" (or_empty exoptions) = None ->
  exists headers,
    get "headers" (built1 rurl data exheaders exoptions) = Some (VObject headers) /\
    get "Content-Length" headers = Some v.
Proof.
  intros Hnd Hcl Hh. exists (first_headers VERSION (url_parse rurl) data exheaders). split.
  - rewrite (first_buildRequest_get _ _ _ _ _ Hh). cbv zeta.
    destruct (keep_alive _); reflexivity.
  - unfold first_headers. now apply MapFacts.get_assign_some.
Qed.

End FirstVersion.

(** X19.  All the attachments that the first version returns are the same:
    each is read from the first segment that holds the word [attachment]. *)
Theorem first_version_attachments_equal res body a b :
  In a (HttpClientFirst.handleAttachmentResponse res body) ->
  In b (HttpClientFirst.handleAttachmentResponse res body) ->
  a = b.
Proof.
  unfold HttpClientFirst.handleAttachmentResponse.
  destruct body as [| | ? | ? | text | ? | ? | ?]; try contradiction.
  destruct res as [r|]; [|contradiction].
  destruct (get "content-type" (Response.headers r)) as [ct|]; [|contradiction].
  destruct (exec true boundary_re ct) as [mr|]; [|contradiction].
  cbv zeta. rewrite !in_map_iff.
  intros (x & <- & _) (y & <- & _). reflexivity.
Qed.

(** X20.  The first version returns no attachment when the response has no
    Content-Type or one without a [boundary="..."] token. *)
Theorem first_version_fails_soft res body :
  content_type res = None
  \/ (exists ct, content_type res = Some ct /\ ~ has_boundary_token ct) ->
  HttpClientFirst.handleAttachmentResponse res body = [].
Proof.
  intros H. unfold HttpClientFirst.handleAttachmentResponse.
  destruct body as [| | ? | ? | text | ? | ? | ?]; try reflexivity.
  destruct res as [r|]; [|reflexivity].
  simpl in H. destruct H as [-> | (ct & -> & Hct)]; [reflexivity|].
  apply PatternFacts.boundary_exec_none in Hct. now rewrite Hct.
Qed.

(* ================================================================== *)
(** ** Closed examples of the further properties *)

Lemma handleResponse_returns_envelope_witness :
  exists out c,
    handleResponse (VString sample_body) = VString out /\
    matches true envelope_re out [] EmptyString c.
Proof.
  apply (handleResponse_returns_envelope sample_body).
  apply (ExecFacts.exec_some_occurs true envelope_re sample_body
           (MatchResult 7 sample_envelope [(2, ">..."); (1, "soap")])).
  vm_compute. reflexivity.
Defined.

Lemma handleResponse_needs_prefix_witness :
  handleResponse (VString "junk<Envelope><Body/></Envelope>junk")
  = VString "junk<Envelope><Body/></Envelope>junk".
Proof.
  apply (handleResponse_needs_prefix "junk<Envelope><Body/></Envelope>junk").
  reflexivity.
Defined.

Lemma handleMultipart_segments_witness :
  exists token segments,
    first_boundary_token
      ("multipart/related; boundary=" ++ DQ ++ "MIME_boundary" ++ DQ) token /\
    segments <> [] /\
    join ("--" ++ token) segments = sample_multipart /\
    Forall (fun segment => ~ holds ("--" ++ token) segment) segments /\
    handleMultipart (Some sample_response) (VString sample_multipart)
    = map parse_segment segments.
Proof.
  apply (handleMultipart_segments (Some sample_response)
           ("multipart/related; boundary=" ++ DQ ++ "MIME_boundary" ++ DQ)
           sample_multipart).
  - reflexivity.
  - exists "multipart/related; ", "boundary=", "MIME_boundary", EmptyString.
    repeat split.
Defined.

Lemma parse_segment_at_blank_line_witness :
  parse_segment ("A: b" ++ CRLF ++ CRLF ++ "payload")
  = MimePart.Make [("A", Some "b")] "payload".
Proof.
  apply (parse_segment_at_blank_line "A: b" "payload").
  intros pre post H.
  do 4 (destruct pre as [|? pre]; [discriminate H | injection H as _ H]).
  simpl. lia.
Defined.




Lemma multipart_headers_witness :
  exists headers,
    get "headers"
        (fst (Sample.buildRequest Sample.rurl (VString "<x/>")
                (Some [("SOAPAction", VString "urn:op")])
                (Some [("attachments", VObject [("a", VBuffer "A")])]) 0))
    = Some (VObject headers) /\
    get "SOAPAction" headers = None /\
    (get "Content-Length" (or_empty (Some [("SOAPAction", VString "urn:op")])) = None ->
     get "Content-Length" headers = None).
Proof.
  apply (multipart_headers Sample.VERSION Sample.url_parse nat Sample.uuid
           Sample.rurl (VString "<x/>")
           (Some [("SOAPAction", VString "urn:op")])
           (Some [("attachments", VObject [("a", VBuffer "A")])]) 0);
    reflexivity.
Defined.

Lemma content_length_of_payload_witness :
  exists headers,
    get "headers"
        (fst (Sample.buildRequest Sample.rurl (VString "<x/>")
                (Some [("Content-Length", VNumber 99)]) None 0))
    = Some (VObject headers) /\
    get "Content-Length" headers = Some (VNumber 4).
Proof.
  apply (content_length_of_payload Sample.VERSION Sample.url_parse nat Sample.uuid
           Sample.rurl "<x/>" (Some [("Content-Length", VNumber 99)]) None 0);
    reflexivity.
Defined.

Lemma extra_header_overrides_witness :
  exists headers,
    get "headers"
        (fst (Sample.buildRequest Sample.rurl (VString "<x/>")
                (Some [("Connection", VString "keep-alive")]) None 0))
    = Some (VObject headers) /\
    get "Connection" headers = Some (VString "keep-alive").
Proof.
  apply (extra_header_overrides Sample.VERSION Sample.url_parse nat Sample.uuid
           Sample.rurl (VString "<x/>")
           (Some [("Connection", VString "keep-alive")]) None 0
           "Connection" (VString "keep-alive")).
  - repeat constructor. intros [].
  - reflexivity.
  - discriminate.
  - discriminate.
  - discriminate.
  - reflexivity.
Defined.

Lemma extra_option_overrides_witness :
  get "encoding"
      (fst (Sample.buildRequest Sample.rurl (VString "<x/>") None
              (Some [("encoding", VString "utf8")]) 0))
  = Some (VString "utf8").
Proof.
  apply (extra_option_overrides Sample.VERSION Sample.url_parse nat Sample.uuid
           Sample.rurl (VString "<x/>") None
           (Some [("encoding", VString "utf8")]) 0 "encoding" (VString "utf8")).
  - repeat constructor. intros [].
  - reflexivity.
  - discriminate.
Defined.


Lemma first_version_sends_payload_once_witness :
  exists headers,
    get "headers"
        (options (HttpClientFirst.request Sample.VERSION Sample.url_parse
                    Sample.rurl (VString "<x/>") None None))
    = Some (VObject headers) /\
    if keep_alive headers
    then get "body"
             (options (HttpClientFirst.request Sample.VERSION Sample.url_parse
                         Sample.rurl (VString "<x/>") None None))
         = Some (VString "<x/>") /\
         flush (HttpClientFirst.request Sample.VERSION Sample.url_parse
                  Sample.rurl (VString "<x/>") None None) = NoEnd
    else get "body"
             (options (HttpClientFirst.request Sample.VERSION Sample.url_parse
                         Sample.rurl (VString "<x/>") None None))
         = None /\
         flush (HttpClientFirst.request Sample.VERSION Sample.url_parse
                  Sample.rurl (VString "<x/>") None None)
         = EndWith (VString "<x/>").
Proof.
  apply (first_version_sends_payload_once Sample.VERSION Sample.url_parse
           Sample.rurl (VString "<x/>") None None); reflexivity.
Defined.

Lemma first_version_extra_content_length_witness :
  exists headers,
    get "headers"
        (HttpClientFirst.buildRequest Sample.VERSION Sample.url_parse
           Sample.rurl (VString "<x/>") (Some [("Content-Length", VNumber 99)]) None)
    = Some (VObject headers) /\
    get "Content-Length" headers = Some (VNumber 99).
Proof.
  apply (first_version_extra_content_length Sample.VERSION Sample.url_parse
           Sample.rurl (VString "<x/>") (Some [("Content-Length", VNumber 99)]) None
           (VNumber 99)).
  - repeat constructor. intros [].
  - reflexivity.
  - reflexivity.
Defined.

Lemma first_version_attachments_equal_witness :
  nth 0 (HttpClientFirst.handleAttachmentResponse
           (Some sample_response) (VString sample_attachments))
        (HttpClientFirst.MkAttachment [] None)
  = nth 1 (HttpClientFirst.handleAttachmentResponse
             (Some sample_response) (VString sample_attachments))
          (HttpClientFirst.MkAttachment [] None).
Proof.
  apply (first_version_attachments_equal
           (Some sample_response) (VString sample_attachments)).
  - vm_compute. left. reflexivity.
  - vm_compute. right. left. reflexivity.
Defined.

Lemma first_version_fails_soft_witness :
  HttpClientFirst.handleAttachmentResponse
    (Some (Response.Make [("content-type", "text/xml; charset=utf-8")]))
    (VString sample_attachments) = [].
Proof.
  apply (first_version_fails_soft
           (Some (Response.Make [("content-type", "text/xml; charset=utf-8")]))
           (VString sample_attachments)).
  right. eexists. split; [reflexivity|].
  apply PatternFacts.unquoted_no_token. reflexivity.
Defined.

Lemma request_reads_replaced_headers_witness :
  flush (fst (Sample.request Sample.rurl (VString "<x/>") None
                (Some [("headers", VNull)]) 0))
  = TypeError.
Proof.
  apply (request_reads_replaced_headers Sample.VERSION Sample.url_parse nat Sample.uuid
           Sample.rurl (VString "<x/>") None (Some [("headers", VNull)]) 0 VNull).
  - repeat constructor. intros [].
  - reflexivity.
  - left. reflexivity.
Defined.
